(** * Session and configuration store of banana-slides (frontend)

    A shallow embedding of [frontend/src/store/useAuthStore.ts] (the Zustand
    store holding the session, the user and the settings), of the API
    surface it calls ([frontend/src/api/auth.ts]) and of the two React
    effects that drive it at start-up ([App.tsx]) and on the settings page
    ([pages/Settings.tsx]).

    Every store action is an [async] function.  It is embedded as a
    resumption ([Proc]): the synchronous stretches read and patch the store,
    and each [await] of a network call is a suspension point at which the
    event loop may run something else.  The event loop itself is [invoke] /
    [respond]: start an action, or hand a response to one pending request. *)

From Stdlib Require Import String List Bool ZArith Arith Lia.
Import ListNotations.
Open Scope string_scope.
Open Scope list_scope.

Set Implicit Arguments.

(* ------------------------------------------------------------------ *)
(** ** api/auth.ts : payload types *)

Module Api.

Record User := {
  id : string;
  username : string;
  email : option string;
  avatar_url : option string;
  role : string;
  oauth_provider : option string;
  is_active : option bool;
  created_at : string;
  updated_at : option string
}.

Record UserSettings := {
  settings_id : string;                      (* id *)
  user_id : string;
  google_api_base : option string;
  mineru_api_base : option string;
  image_caption_model : option string;
  max_description_workers : option Z;
  max_image_workers : option Z;
  has_google_api_key : bool;
  has_mineru_token : bool;
  settings_created_at : string;              (* created_at *)
  settings_updated_at : string               (* updated_at *)
}.

(** ['user' | 'system'] *)
Inductive Source := user_source | system_source.

Record Secret := { is_set : bool; secret_source : Source }.
Record Plain (A : Type) := { value : A; source : Source }.

Record EffectiveConfig := {
  ec_google_api_key : Secret;
  ec_google_api_base : Plain string;
  ec_mineru_token : Secret;
  ec_mineru_api_base : Plain string;
  ec_image_caption_model : Plain string;
  ec_max_description_workers : Plain Z;
  ec_max_image_workers : Plain Z
}.

Record LoginRequest := {
  login_email : string;
  login_password : string;
  remember_me : option bool
}.

(** The store calls [authApi.register({ username, email, password })]
    without a verification code, hence the option. *)
Record RegisterRequest := {
  reg_username : string;
  reg_email : string;
  reg_password : string;
  verification_code : option string
}.

Record UpdateSettingsRequest := {
  new_google_api_key : option string;
  new_google_api_base : option string;
  new_mineru_token : option string;
  new_mineru_api_base : option string;
  new_image_caption_model : option string;
  new_max_description_workers : option Z;
  new_max_image_workers : option Z
}.

(** [{ user: User } & AuthTokens] *)
Record Session := {
  user : User;
  access_token : string;
  refresh_token : string;
  token_type : string
}.

(** [{ access_token: string; token_type: string }] *)
Record Refreshed := {
  new_access_token : string;
  new_token_type : string
}.

(** [{ settings: UserSettings; effective_config: EffectiveConfig }] *)
Record Settings := {
  settings : UserSettings;
  effective_config : EffectiveConfig
}.

(** What a [catch (error: any)] block looks at: [error.response?.status]
    and [error.response?.data?.error].  [response = None] is a transport
    failure (no HTTP response at all). *)
Record ErrorResponse := {
  status : Z;
  data_error : option string
}.

Record Error := { response : option ErrorResponse }.

(** The calls of [authApi] and [userApi] that the store issues. *)
Inductive Request :=
| AuthLogin (data : LoginRequest)
| AuthRegister (data : RegisterRequest)
| AuthLogout
| AuthRefresh (refreshToken : string)
| AuthGetCurrentUser
| UserGetSettings
| UserUpdateSettings (data : UpdateSettingsRequest)
| UserResetSetting (key : string).

(** The declared type of the promise each call resolves to. *)
Definition resp_type (r : Request) : Type :=
  match r with
  | AuthLogin _ | AuthRegister _ => Session
  | AuthLogout => unit
  | AuthRefresh _ => Refreshed
  | AuthGetCurrentUser => User
  | UserGetSettings | UserUpdateSettings _ | UserResetSetting _ => Settings
  end.

(** A settled promise of an API call. *)
Inductive Result (A : Type) :=
| Ok (response : A)
| Err (error : Error).

Arguments Err {A} error.

End Api.

(* ------------------------------------------------------------------ *)
(** ** store/useAuthStore.ts : the state *)

Record AuthState := {
  user : option Api.User;
  accessToken : option string;
  refreshToken : option string;
  isAuthenticated : bool;
  isLoading : bool;
  error : option string;
  settings : option Api.UserSettings;
  effectiveConfig : option Api.EffectiveConfig
}.

(** The initial state of [create<AuthState>()]. *)
Definition initial_state : AuthState :=
  {| user := None; accessToken := None; refreshToken := None;
     isAuthenticated := false; isLoading := false; error := None;
     settings := None; effectiveConfig := None |}.

(** One [key: value] entry of the object literal handed to [set]. *)
Inductive Assign :=
| set_user (v : option Api.User)
| set_accessToken (v : option string)
| set_refreshToken (v : option string)
| set_isAuthenticated (v : bool)
| set_isLoading (v : bool)
| set_error (v : option string)
| set_settings (v : option Api.UserSettings)
| set_effectiveConfig (v : option Api.EffectiveConfig).

(** [Partial<AuthState>]: the argument of Zustand's [set], merged
    shallowly into the state. *)
Definition Patch := list Assign.

Definition assign (st : AuthState) (a : Assign) : AuthState :=
  match a with
  | set_user v =>
      {| user := v; accessToken := accessToken st; refreshToken := refreshToken st;
         isAuthenticated := isAuthenticated st; isLoading := isLoading st;
         error := error st; settings := settings st;
         effectiveConfig := effectiveConfig st |}
  | set_accessToken v =>
      {| user := user st; accessToken := v; refreshToken := refreshToken st;
         isAuthenticated := isAuthenticated st; isLoading := isLoading st;
         error := error st; settings := settings st;
         effectiveConfig := effectiveConfig st |}
  | set_refreshToken v =>
      {| user := user st; accessToken := accessToken st; refreshToken := v;
         isAuthenticated := isAuthenticated st; isLoading := isLoading st;
         error := error st; settings := settings st;
         effectiveConfig := effectiveConfig st |}
  | set_isAuthenticated v =>
      {| user := user st; accessToken := accessToken st;
         refreshToken := refreshToken st;
         isAuthenticated := v; isLoading := isLoading st;
         error := error st; settings := settings st;
         effectiveConfig := effectiveConfig st |}
  | set_isLoading v =>
      {| user := user st; accessToken := accessToken st;
         refreshToken := refreshToken st;
         isAuthenticated := isAuthenticated st; isLoading := v;
         error := error st; settings := settings st;
         effectiveConfig := effectiveConfig st |}
  | set_error v =>
      {| user := user st; accessToken := accessToken st;
         refreshToken := refreshToken st;
         isAuthenticated := isAuthenticated st; isLoading := isLoading st;
         error := v; settings := settings st;
         effectiveConfig := effectiveConfig st |}
  | set_settings v =>
      {| user := user st; accessToken := accessToken st;
         refreshToken := refreshToken st;
         isAuthenticated := isAuthenticated st; isLoading := isLoading st;
         error := error st; settings := v;
         effectiveConfig := effectiveConfig st |}
  | set_effectiveConfig v =>
      {| user := user st; accessToken := accessToken st;
         refreshToken := refreshToken st;
         isAuthenticated := isAuthenticated st; isLoading := isLoading st;
         error := error st; settings := settings st;
         effectiveConfig := v |}
  end.

Definition apply_patch (partial : Patch) (st : AuthState) : AuthState :=
  fold_left assign partial st.

(** What the [persist] middleware writes to ['auth-storage']. *)
Record Persisted := {
  persisted_accessToken : option string;
  persisted_refreshToken : option string;
  persisted_user : option Api.User;
  persisted_isAuthenticated : bool
}.

Definition partialize (state : AuthState) : Persisted :=
  {| persisted_accessToken := accessToken state;
     persisted_refreshToken := refreshToken state;
     persisted_user := user state;
     persisted_isAuthenticated := isAuthenticated state |}.

(** JavaScript truthiness of a [string | null]: [null] and the empty
    string are falsy. *)
Definition truthy (s : option string) : bool :=
  match s with
  | None | Some "" => false
  | Some _ => true
  end.

(** [error.response?.status === 401] *)
Definition unauthorized (e : Api.Error) : bool :=
  match Api.response e with
  | Some r => (Api.status r =? 401)%Z
  | None => false
  end.

(** [error.response?.data?.error || fallback] *)
Definition error_message (e : Api.Error) (fallback : string) : string :=
  match Api.response e with
  | Some r => if truthy (Api.data_error r)
              then match Api.data_error r with Some m => m | None => fallback end
              else fallback
  | None => fallback
  end.

(* ------------------------------------------------------------------ *)
(** ** Asynchronous actions as resumptions *)

(** How an [async] function settles: it returns, or it rejects with
    [new Error(message)]. *)
Inductive Outcome (A : Type) :=
| Returned (a : A)
| Threw (message : string).

Arguments Threw {A} message.

(** The body of an [async] store action.  [Get] is [get()], [Set_] is
    [set({...})], [Await] is the [await] of an API call (the only real
    suspension point), [Fork] is a call of another [async] action whose
    promise is dropped (as in [get().fetchSettings();]). *)
Inductive Proc (A : Type) : Type :=
| Ret (a : A)
| Throw (message : string)
| Get (k : AuthState -> Proc A)
| Set_ (partial : Patch) (k : Proc A)
| ConsoleError (label : string) (e : Api.Error) (k : Proc A)
| Fork (child : Proc unit) (k : Proc A)
| Await (r : Api.Request) (k : Api.Result (Api.resp_type r) -> Proc A).

Arguments Throw {A} message.
Arguments Get {A} k.
Arguments Set_ {A} partial k.
Arguments ConsoleError {A} label e k.
Arguments Fork {A} child k.
Arguments Await {A} r k.

Fixpoint bind (A B : Type) (p : Proc A) (f : A -> Proc B) : Proc B :=
  match p with
  | Ret a => f a
  | Throw m => Throw m
  | Get k => Get (fun st => bind (k st) f)
  | Set_ partial k => Set_ partial (bind k f)
  | ConsoleError l e k => ConsoleError l e (bind k f)
  | Fork c k => Fork c (bind k f)
  | Await r k => Await r (fun x => bind (k x) f)
  end.

Notation "x <- c1 ;; c2" := (bind c1 (fun x => c2))
  (at level 61, c1 at next level, right associativity).
Notation "c1 ;; c2" := (bind c1 (fun _ => c2))
  (at level 61, right associativity).

Definition get : Proc AuthState := Get (fun st => Ret st).
Definition set (partial : Patch) : Proc unit := Set_ partial (Ret tt).
Definition console_error (label : string) (e : Api.Error) : Proc unit :=
  ConsoleError label e (Ret tt).
Definition fork (child : Proc unit) : Proc unit := Fork child (Ret tt).
Definition await (r : Api.Request) : Proc (Api.Result (Api.resp_type r)) :=
  Await r (fun x => Ret x).

(* ------------------------------------------------------------------ *)
(** ** store/useAuthStore.ts : the actions *)

(** The object literal that [logout] and the failure branch of
    [refreshAccessToken] hand to [set]: the session, the user and the
    cached configuration are dropped. *)
Definition clearSession : Patch :=
  [ set_user None; set_accessToken None; set_refreshToken None;
    set_isAuthenticated false; set_settings None; set_effectiveConfig None ].

(** The object literal of a successful [login] / [register]. *)
Definition setSession (response : Api.Session) : Patch :=
  [ set_user (Some (Api.user response));
    set_accessToken (Some (Api.access_token response));
    set_refreshToken (Some (Api.refresh_token response));
    set_isAuthenticated true; set_isLoading false ].

Definition fetchSettings : Proc unit :=
  res <- await Api.UserGetSettings ;;
  match res with
  | Api.Ok response =>
      set [ set_settings (Some (Api.settings response));
            set_effectiveConfig (Some (Api.effective_config response)) ]
  | Api.Err error =>
      console_error "Failed to fetch settings:" error
  end.

Definition updateSettings (data : Api.UpdateSettingsRequest) : Proc unit :=
  res <- await (Api.UserUpdateSettings data) ;;
  match res with
  | Api.Ok response =>
      set [ set_settings (Some (Api.settings response));
            set_effectiveConfig (Some (Api.effective_config response)) ]
  | Api.Err error =>
      let message := error_message error "Failed to update settings" in
      set [ set_error (Some message) ] ;;
      Throw message
  end.

Definition resetSetting (key : string) : Proc unit :=
  res <- await (Api.UserResetSetting key) ;;
  match res with
  | Api.Ok response =>
      set [ set_settings (Some (Api.settings response));
            set_effectiveConfig (Some (Api.effective_config response)) ]
  | Api.Err error =>
      let message := error_message error "Failed to reset setting" in
      set [ set_error (Some message) ] ;;
      Throw message
  end.

Definition login (email password : string) (rememberMe : option bool)
  : Proc unit :=
  let rememberMe := match rememberMe with Some b => b | None => false end in
  set [ set_isLoading true; set_error None ] ;;
  res <- await (Api.AuthLogin
                  {| Api.login_email := email; Api.login_password := password;
                     Api.remember_me := Some rememberMe |}) ;;
  match res with
  | Api.Ok response =>
      set (setSession response) ;;
      (* Fetch settings after login *)
      fork fetchSettings
  | Api.Err error =>
      let message := error_message error "Login failed" in
      set [ set_error (Some message); set_isLoading false ] ;;
      Throw message
  end.

Definition register (username email password : string) : Proc unit :=
  set [ set_isLoading true; set_error None ] ;;
  res <- await (Api.AuthRegister
                  {| Api.reg_username := username; Api.reg_email := email;
                     Api.reg_password := password;
                     Api.verification_code := None |}) ;;
  match res with
  | Api.Ok response =>
      set (setSession response) ;;
      (* Fetch settings after registration *)
      fork fetchSettings
  | Api.Err error =>
      let message := error_message error "Registration failed" in
      set [ set_error (Some message); set_isLoading false ] ;;
      Throw message
  end.

Definition logout : Proc unit :=
  res <- await Api.AuthLogout ;;
  match res with
  | Api.Ok _ => Ret tt
  | Api.Err _ => Ret tt          (* Ignore logout errors *)
  end ;;
  set clearSession.

Definition refreshAccessToken : Proc bool :=
  st <- get ;;
  match refreshToken st with
  | None | Some "" => Ret false                 (* if (!refreshToken) *)
  | Some token =>
      res <- await (Api.AuthRefresh token) ;;
      match res with
      | Api.Ok response =>
          set [ set_accessToken (Some (Api.new_access_token response)) ] ;;
          Ret true
      | Api.Err _ =>
          (* Refresh failed, logout *)
          set clearSession ;;
          Ret false
      end
  end.

(** The [try] / [catch] of [fetchCurrentUser], from the moment the first
    [authApi.getCurrentUser()] has settled. *)
Definition fetchCurrentUser_settled (res : Api.Result Api.User) : Proc unit :=
  match res with
  | Api.Ok response =>
      set [ set_user (Some response); set_isAuthenticated true;
            set_isLoading false ]
  | Api.Err error =>
      if unauthorized error then
        (* Token expired, try refresh *)
        refreshed <- refreshAccessToken ;;
        if (refreshed : bool) then
          (* Retry fetch *)
          res' <- await Api.AuthGetCurrentUser ;;
          match res' with
          | Api.Ok response =>
              set [ set_user (Some response); set_isAuthenticated true;
                    set_isLoading false ]
          | Api.Err _ => set [ set_isLoading false ]
          end
        else set [ set_isLoading false ]
      else set [ set_isLoading false ]
  end.

Definition fetchCurrentUser : Proc unit :=
  st <- get ;;
  if negb (truthy (accessToken st)) then Ret tt else
  set [ set_isLoading true ] ;;
  res <- await Api.AuthGetCurrentUser ;;
  fetchCurrentUser_settled res.

Definition setTokensFromOAuth (accessToken refreshToken : string)
  : Proc unit :=
  set [ set_accessToken (Some accessToken);
        set_refreshToken (Some refreshToken); set_isAuthenticated true ] ;;
  fetchCurrentUser ;;
  fork fetchSettings.

Definition clearError : Proc unit := set [ set_error None ].
Definition setError (error : string) : Proc unit :=
  set [ set_error (Some error) ].

(** App.tsx, the effect that restores the login state on mount:
    [if (isAuthenticated) fetchCurrentUser();] *)
Definition App_restore_login : Proc unit :=
  st <- get ;;
  if isAuthenticated st then fork fetchCurrentUser else Ret tt.

(** pages/Settings.tsx, the effect that loads the settings:
    [if (isAuthenticated) fetchSettings();] *)
Definition Settings_load_settings : Proc unit :=
  st <- get ;;
  if isAuthenticated st then fork fetchSettings else Ret tt.

(* ------------------------------------------------------------------ *)
(** ** The event loop *)

(** What an action's promise resolves to, as far as callers look at it. *)
Inductive Val := VVoid | VBool (b : bool).

Definition void (_ : unit) : Val := VVoid.

Definition settled (A : Type) (show : A -> Val) (o : Outcome A) : Outcome Val :=
  match o with
  | Returned a => Returned (show a)
  | Threw m => Threw m
  end.

(** What can be observed of a run.  [EvRequest] records which running
    action issued the request and the store's access token at that
    moment. *)
Inductive Event :=
| EvSet (partial : Patch)
| EvRequest (caller : nat) (bearer : option string) (r : Api.Request)
| EvConsoleError (label : string) (e : Api.Error)
| EvSettled (caller : nat) (o : Outcome Val).

(** An action suspended at an [await]: the request in flight and the rest
    of the body. *)
Record Task := {
  caller : nat;
  result_type : Type;
  show : result_type -> Val;
  request : Api.Request;
  resume : Api.Result (Api.resp_type request) -> Proc result_type
}.

Record World := {
  store : AuthState;
  pool : list Task;          (* requests in flight, oldest first *)
  trace : list Event;        (* oldest first *)
  next_caller : nat
}.

Definition init_world (st : AuthState) : World :=
  {| store := st; pool := []; trace := []; next_caller := 0 |}.

Definition log (ev : Event) (w : World) : World :=
  {| store := store w; pool := pool w; trace := trace w ++ [ev];
     next_caller := next_caller w |}.

Definition with_store (st : AuthState) (w : World) : World :=
  {| store := st; pool := pool w; trace := trace w;
     next_caller := next_caller w |}.

Definition with_pool (p : list Task) (w : World) : World :=
  {| store := store w; pool := p; trace := trace w;
     next_caller := next_caller w |}.

Definition bump (w : World) : World :=
  {| store := store w; pool := pool w; trace := trace w;
     next_caller := S (next_caller w) |}.

(** Modelled from the spec: the transport layer ([api/client.ts], not part
    of the sources at hand) attaches the store's current access token to
    each outgoing request; section 4.1 calls this [currentAccessToken()]. *)
Definition currentAccessToken (st : AuthState) : option string :=
  accessToken st.

Inductive Status (A : Type) :=
| Done (o : Outcome A)
| Suspended (r : Api.Request) (k : Api.Result (Api.resp_type r) -> Proc A).

(** The end of a synchronous stretch: the action has settled, or it waits
    for a response. *)
Definition settle (me : nat) (A : Type) (show : A -> Val) (s : Status A)
  (w : World) : World :=
  match s with
  | Done o => log (EvSettled me (settled show o)) w
  | Suspended r k =>
      with_pool (pool w ++ [ {| caller := me; show := show;
                                request := r; resume := k |} ]) w
  end.

(** Run the action [me] up to its next [await].  A forked action runs its
    own first stretch at once, as a call of an [async] function does.  An
    [await] of an action that returns without a request of its own (as
    [await get().refreshAccessToken()] when its guard returns) continues in
    the same stretch: the continuation is a microtask, and no response is
    delivered before it has run. *)
Fixpoint exec (A : Type) (me : nat) (p : Proc A) (w : World) {struct p}
  : Status A * World :=
  match p with
  | Ret a => (Done (Returned a), w)
  | Throw m => (Done (Threw m), w)
  | Get k => exec me (k (store w)) w
  | Set_ partial k =>
      exec me k (log (EvSet partial)
                   (with_store (apply_patch partial (store w)) w))
  | ConsoleError l e k => exec me k (log (EvConsoleError l e) w)
  | Fork child k =>
      let child_id := next_caller w in
      let (s, w') := exec child_id child (bump w) in
      exec me k (settle child_id void s w')
  | Await r k =>
      (Suspended r k, log (EvRequest me (currentAccessToken (store w)) r) w)
  end.

Definition start (A : Type) (show : A -> Val) (p : Proc A) (w : World)
  : World :=
  let me := next_caller w in
  let (s, w') := exec me p (bump w) in
  settle me show s w'.

(** What the server (or the network) answers to a request. *)
Definition Reply := forall r : Api.Request, Api.Result (Api.resp_type r).

Fixpoint take_nth (A : Type) (i : nat) (l : list A) : option (A * list A) :=
  match l, i with
  | [], _ => None
  | x :: l', O => Some (x, l')
  | x :: l', S i' =>
      match take_nth i' l' with
      | Some (y, rest) => Some (y, x :: rest)
      | None => None
      end
  end.

(** The [i]-th request in flight is answered and its action resumes. *)
Definition respond (i : nat) (reply : Reply) (w : World) : World :=
  match take_nth i (pool w) with
  | Some (t, rest) =>
      let (s, w') := exec (caller t) (resume t (reply (request t)))
                       (with_pool rest w) in
      settle (caller t) (show t) s w'
  | None => w
  end.

(** The entry points: the actions of the store and the two effects. *)
Inductive Call :=
| CallLogin (email password : string) (rememberMe : option bool)
| CallRegister (username email password : string)
| CallLogout
| CallRefreshAccessToken
| CallFetchCurrentUser
| CallSetTokensFromOAuth (accessToken refreshToken : string)
| CallFetchSettings
| CallUpdateSettings (data : Api.UpdateSettingsRequest)
| CallResetSetting (key : string)
| CallClearError
| CallSetError (error : string)
| MountApp
| MountSettings.

(** The body behind each entry point, with the way its result is shown. *)
Definition body (c : Call) : Proc unit + Proc bool :=
  match c with
  | CallLogin e p r => inl (login e p r)
  | CallRegister u e p => inl (register u e p)
  | CallLogout => inl logout
  | CallRefreshAccessToken => inr refreshAccessToken
  | CallFetchCurrentUser => inl fetchCurrentUser
  | CallSetTokensFromOAuth a r => inl (setTokensFromOAuth a r)
  | CallFetchSettings => inl fetchSettings
  | CallUpdateSettings d => inl (updateSettings d)
  | CallResetSetting k => inl (resetSetting k)
  | CallClearError => inl clearError
  | CallSetError e => inl (setError e)
  | MountApp => inl App_restore_login
  | MountSettings => inl Settings_load_settings
  end.

Definition invoke (c : Call) (w : World) : World :=
  match body c with
  | inl p => start void p w
  | inr p => start VBool p w
  end.

Inductive Step :=
| Invoke (c : Call)
| Respond (i : nat) (reply : Reply).

Definition step (w : World) (s : Step) : World :=
  match s with
  | Invoke c => invoke c w
  | Respond i reply => respond i reply w
  end.

Definition run (schedule : list Step) (w : World) : World :=
  fold_left step schedule w.

(** *** Observations *)

Definition is_refresh (r : Api.Request) : bool :=
  match r with Api.AuthRefresh _ => true | _ => false end.

Definition is_get_settings (r : Api.Request) : bool :=
  match r with Api.UserGetSettings => true | _ => false end.

Definition is_get_current_user (r : Api.Request) : bool :=
  match r with Api.AuthGetCurrentUser => true | _ => false end.

(** The requests issued so far, oldest first. *)
Fixpoint requests (t : list Event) : list Api.Request :=
  match t with
  | [] => []
  | EvRequest _ _ r :: t' => r :: requests t'
  | _ :: t' => requests t'
  end.

Definition count (A : Type) (f : A -> bool) (l : list A) : nat :=
  length (filter f l).

Arguments count : simpl never.

(** The requests awaiting their response. *)
Definition in_flight (w : World) : list Api.Request := map request (pool w).

(** [set] was called with exactly the [clearSession] literal. *)
Definition is_clearSession (ev : Event) : bool :=
  match ev with
  | EvSet [ set_user None; set_accessToken None; set_refreshToken None;
            set_isAuthenticated false; set_settings None;
            set_effectiveConfig None ] => true
  | _ => false
  end.

(** How the action [me] settled, if it has. *)
Fixpoint outcome_of (me : nat) (t : list Event) : option (Outcome Val) :=
  match t with
  | [] => None
  | EvSettled c o :: t' => if Nat.eqb c me then Some o else outcome_of me t'
  | _ :: t' => outcome_of me t'
  end.

(** A [fetchCurrentUser] started by [me], waiting for its first response. *)
Definition awaiting_user (me : nat) : Task :=
  {| caller := me; show := void; request := Api.AuthGetCurrentUser;
     resume := fetchCurrentUser_settled |}.

(** *** The session invariant *)

(** "Both tokens are present." *)
Definition both_present (st : AuthState) : bool :=
  match accessToken st, refreshToken st with
  | Some _, Some _ => true
  | _, _ => false
  end.

(** The flag agrees with the tokens, and the tokens come and go together. *)
Definition coherent (st : AuthState) : bool :=
  match accessToken st, refreshToken st with
  | Some _, Some _ => isAuthenticated st
  | None, None => negb (isAuthenticated st)
  | _, _ => false
  end.

(** What a suspended action may rely on when it resumes: only that the
    store is coherent, or also that the session is authenticated. *)
Inductive Phase := AnyPhase | AuthPhase.

Definition holds (ph : Phase) (st : AuthState) : Prop :=
  coherent st = true /\
  match ph with AnyPhase => True | AuthPhase => isAuthenticated st = true end.

Definition refine (ph : Phase) (st : AuthState) : Phase :=
  if isAuthenticated st then AuthPhase else ph.

(** An entry that leaves the session fields alone. *)
Definition neutral_assign (a : Assign) : bool :=
  match a with
  | set_accessToken _ | set_refreshToken _ | set_isAuthenticated _ => false
  | _ => true
  end.

Definition neutral_patch (partial : Patch) : bool :=
  forallb neutral_assign partial.

(** A body that never writes a session field (like [fetchSettings]). *)
Inductive Neutral : forall A : Type, Proc A -> Prop :=
| Neutral_Ret A (a : A) : Neutral (Ret a)
| Neutral_Throw A m : Neutral (@Throw A m)
| Neutral_Get A (k : AuthState -> Proc A) :
    (forall st, Neutral (k st)) -> Neutral (Get k)
| Neutral_Set A partial (k : Proc A) :
    neutral_patch partial = true -> Neutral k -> Neutral (Set_ partial k)
| Neutral_ConsoleError A l e (k : Proc A) :
    Neutral k -> Neutral (ConsoleError l e k)
| Neutral_Fork A child (k : Proc A) :
    Neutral child -> Neutral k -> Neutral (Fork child k)
| Neutral_Await A r (k : Api.Result (Api.resp_type r) -> Proc A) :
    (forall x, Neutral (k x)) -> Neutral (Await r k).

(** A body that keeps the store coherent at each of its writes, provided
    that nothing else writes a session field while it is suspended. *)
Inductive Safe : forall A : Type, Phase -> Proc A -> Prop :=
| Safe_Ret A ph (a : A) : Safe ph (Ret a)
| Safe_Throw A ph m : Safe ph (@Throw A m)
| Safe_Get A ph (k : AuthState -> Proc A) :
    (forall st, holds ph st -> Safe (refine ph st) (k st)) -> Safe ph (Get k)
| Safe_Set A ph ph' partial (k : Proc A) :
    (forall st, holds ph st -> holds ph' (apply_patch partial st)) ->
    Safe ph' k -> Safe ph (Set_ partial k)
| Safe_ConsoleError A ph l e (k : Proc A) :
    Safe ph k -> Safe ph (ConsoleError l e k)
| Safe_Fork A ph child (k : Proc A) :
    Neutral child -> Safe ph k -> Safe ph (Fork child k)
| Safe_Fork_last A ph child (a : A) :
    Safe ph child -> Safe ph (Fork child (Ret a))
| Safe_Await A ph r (k : Api.Result (Api.resp_type r) -> Proc A) :
    (forall x, Safe ph (k x)) -> Safe ph (Await r k).

Definition NeutralTask (t : Task) : Prop := forall x, Neutral (resume t x).
Definition SafeTask (ph : Phase) (t : Task) : Prop :=
  forall x, Safe ph (resume t x).

(** The pool of a world in which at most one pending action may write the
    session fields. *)
Inductive PoolOk (st : AuthState) : list Task -> Prop :=
| PoolOk_quiet pool :
    coherent st = true -> Forall NeutralTask pool -> PoolOk st pool
| PoolOk_busy ph pre t post :
    holds ph st -> SafeTask ph t ->
    Forall NeutralTask pre -> Forall NeutralTask post ->
    PoolOk st (pre ++ t :: post).

Definition WorldOk (w : World) : Prop := PoolOk (store w) (pool w).

(** A request to one of the settings endpoints. *)
Definition is_settings_request (r : Api.Request) : bool :=
  match r with
  | Api.UserGetSettings | Api.UserUpdateSettings _ | Api.UserResetSetting _ =>
      true
  | _ => false
  end.

(** Nothing is in flight but requests to the settings endpoints: every
    action that touches the session has run to its end.  What may still be
    pending is the settings fetch that [login], [register] and the OAuth
    callback start without awaiting it, or a settings call of the page. *)
Definition idle (w : World) : bool :=
  forallb is_settings_request (in_flight w).

(** A schedule in which the actions happen one after the other, as in
    [await login(...); await logout();]: an action is only started when
    the store is [idle].  The caller does not wait for the settings fetch
    that the action before has left behind, and its response may arrive at
    any later point. *)
Fixpoint sequential (schedule : list Step) (w : World) : bool :=
  match schedule with
  | [] => true
  | Invoke c :: rest => idle w && sequential rest (invoke c w)
  | Respond i reply :: rest => sequential rest (respond i reply w)
  end.

(** A body in which whatever follows the response of a settings endpoint
    leaves the session fields alone. *)
Inductive Tame : forall A : Type, Proc A -> Prop :=
| Tame_Ret A (a : A) : Tame (Ret a)
| Tame_Throw A m : Tame (@Throw A m)
| Tame_Get A (k : AuthState -> Proc A) :
    (forall st, Tame (k st)) -> Tame (Get k)
| Tame_Set A partial (k : Proc A) : Tame k -> Tame (Set_ partial k)
| Tame_ConsoleError A l e (k : Proc A) :
    Tame k -> Tame (ConsoleError l e k)
| Tame_Fork A child (k : Proc A) :
    Tame child -> Tame k -> Tame (Fork child k)
| Tame_Await_settings A r (k : Api.Result (Api.resp_type r) -> Proc A) :
    is_settings_request r = true ->
    (forall x, Neutral (k x)) -> Tame (Await r k)
| Tame_Await A r (k : Api.Result (Api.resp_type r) -> Proc A) :
    is_settings_request r = false ->
    (forall x, Tame (k x)) -> Tame (Await r k).

(** What a tame body leaves in the pool when it waits. *)
Definition tame_wait (A : Type) (r : Api.Request)
  (k : Api.Result (Api.resp_type r) -> Proc A) : Prop :=
  if is_settings_request r then forall x, Neutral (k x)
  else forall x, Tame (k x).

Arguments tame_wait {A r} k.

Definition TameTask (t : Task) : Prop := tame_wait (resume t).

(** What a stretch of a tame body leaves behind. *)
Definition tame_status (A : Type) (s : Status A) : Prop :=
  match s with
  | Done _ => True
  | Suspended r k => tame_wait k
  end.

(** A body that never issues a request of the kind [f], neither itself nor
    through what it forks. *)
Inductive Avoids (f : Api.Request -> bool) : forall A : Type, Proc A -> Prop :=
| Avoids_Ret A (a : A) : Avoids f (Ret a)
| Avoids_Throw A m : Avoids f (@Throw A m)
| Avoids_Get A (k : AuthState -> Proc A) :
    (forall st, Avoids f (k st)) -> Avoids f (Get k)
| Avoids_Set A partial (k : Proc A) :
    Avoids f k -> Avoids f (Set_ partial k)
| Avoids_ConsoleError A l e (k : Proc A) :
    Avoids f k -> Avoids f (ConsoleError l e k)
| Avoids_Fork A child (k : Proc A) :
    Avoids f child -> Avoids f k -> Avoids f (Fork child k)
| Avoids_Await A r (k : Api.Result (Api.resp_type r) -> Proc A) :
    f r = false -> (forall x, Avoids f (k x)) -> Avoids f (Await r k).

Definition AvoidsTask (f : Api.Request -> bool) (t : Task) : Prop :=
  forall x, Avoids f (resume t x).

Definition is_respond (s : Step) : bool :=
  match s with Respond _ _ => true | Invoke _ => false end.

Definition says_unauthorized (reply : Reply) : Prop :=
  exists e, reply Api.AuthGetCurrentUser = Api.Err e /\ unauthorized e = true.

(** The session fields of two states agree. *)
Definition same_session (st st' : AuthState) : Prop :=
  accessToken st' = accessToken st /\
  refreshToken st' = refreshToken st /\
  isAuthenticated st' = isAuthenticated st.

(** From [w] to [w'] the session fields were left alone and only tasks
    that leave them alone were added to the pool. *)
Definition extends_neutrally (w w' : World) : Prop :=
  same_session (store w) (store w') /\
  exists extra, pool w' = pool w ++ extra /\ Forall NeutralTask extra.

(** The number of requests of the kind [f] is the same in [w'] as in [w]. *)
Definition unchanged_count (f : Api.Request -> bool) (w w' : World) : Prop :=
  count f (requests (trace w')) = count f (requests (trace w)).

(** What a stretch of a safe body leaves behind. *)
Definition after_stretch (A : Type) (s : Status A) (w : World) : Prop :=
  match s with
  | Done _ => WorldOk w
  | Suspended r k =>
      exists ph, holds ph (store w) /\ (forall x, Safe ph (k x)) /\
                 Forall NeutralTask (pool w)
  end.

(* ------------------------------------------------------------------ *)
(** ** Sample data *)

Module Sample.

Definition ann : Api.User :=
  {| Api.id := "u1"; Api.username := "ann"; Api.email := None;
     Api.avatar_url := None; Api.role := "user";
     Api.oauth_provider := None; Api.is_active := None;
     Api.created_at := "2025-01-01"; Api.updated_at := None |}.

(** A persisted, signed-in session. *)
Definition signed_in : AuthState :=
  {| user := Some ann; accessToken := Some "a1"; refreshToken := Some "r1";
     isAuthenticated := true; isLoading := false; error := None;
     settings := None; effectiveConfig := None |}.

(** The same session without a refresh token. *)
Definition no_refresh_token : AuthState :=
  {| user := Some ann; accessToken := Some "a1"; refreshToken := None;
     isAuthenticated := true; isLoading := false; error := None;
     settings := None; effectiveConfig := None |}.

(** A persisted flag without any token. *)
Definition flag_only : AuthState :=
  {| user := Some ann; accessToken := None; refreshToken := None;
     isAuthenticated := true; isLoading := false; error := None;
     settings := None; effectiveConfig := None |}.

Definition http (code : Z) : Api.Error :=
  {| Api.response :=
       Some {| Api.status := code; Api.data_error := None |} |}.

Definition rejected (e : Api.Error) : Reply := fun r => Api.Err e.

Definition session : Api.Session :=
  {| Api.user := ann; Api.access_token := "a1"; Api.refresh_token := "r1";
     Api.token_type := "bearer" |}.

(** A server that accepts every request. *)
Definition accepted (token : string) : Reply :=
  fun r =>
    match r return Api.Result (Api.resp_type r) with
    | Api.AuthLogin _ | Api.AuthRegister _ => Api.Ok session
    | Api.AuthLogout => Api.Ok tt
    | Api.AuthRefresh _ =>
        Api.Ok {| Api.new_access_token := token;
                  Api.new_token_type := "bearer" |}
    | Api.AuthGetCurrentUser => Api.Ok ann
    | _ => Api.Err (http 500)
    end.

End Sample.

(* ------------------------------------------------------------------ *)
(** ** Tactics *)

Ltac unroll := unfold run, invoke, respond, start; cbn.

(** Split a state into its fields and substitute what is known of them. *)
Ltac open_state st :=
  destruct st as [usr acc ref auth loading err sett eff]; cbn in *; subst.

Ltac nonempty s :=
  destruct s as [|? ?]; [ try discriminate; try congruence | ].

Ltac avoids :=
  repeat first
    [ progress cbn
    | match goal with
      | |- Avoids _ (if ?b then _ else _) => destruct b
      | |- Avoids _ (match ?x with _ => _ end) => destruct x
      | |- Avoids _ (bind (match ?x with _ => _ end) _) => destruct x
      | |- forall _, _ => intro
      end
    | constructor ].

Ltac neutral :=
  unfold fork, set, console_error, get, await;
  repeat first
    [ progress cbn
    | match goal with
      | |- Neutral (if ?b then _ else _) => destruct b
      | |- Neutral (match ?x with _ => _ end) => destruct x
      | |- forall _, _ => intro
      end
    | constructor ].

Ltac tame_step :=
  match goal with
  | |- Tame (Ret _) => apply Tame_Ret
  | |- Tame (Throw _) => apply Tame_Throw
  | |- Tame (Get _) => apply Tame_Get; intro
  | |- Tame (Set_ _ _) => apply Tame_Set
  | |- Tame (ConsoleError _ _ _) => apply Tame_ConsoleError
  | |- Tame (Fork _ _) => apply Tame_Fork
  | |- Tame (Await _ _) =>
      first [ apply Tame_Await_settings; [reflexivity|solve [neutral]]
            | apply Tame_Await; [reflexivity|intro] ]
  | |- Tame (if ?b then _ else _) => destruct b
  | |- Tame (match ?x with _ => _ end) => destruct x
  | |- Tame (bind (match ?x with _ => _ end) _) => destruct x
  | |- Tame (bind (bind (match ?x with _ => _ end) _) _) => destruct x
  end.

Ltac tame :=
  unfold fork, set, console_error, get, await; cbn;
  repeat (tame_step; unfold fork, set, console_error, get, await; cbn).

(** Read off what a coherent state looks like. *)
Ltac coherent_cases :=
  unfold holds, refine, coherent, apply_patch in *; cbn in *;
  repeat match goal with
         | H : _ /\ _ |- _ => destruct H
         | H : context [match ?x with _ => _ end] |- _ =>
             destruct x; cbn in H; try discriminate H
         | H : negb ?b = true |- _ => destruct b; try discriminate H
         | H : ?b = true |- _ => is_var b; subst b
         end.

Ltac solve_holds :=
  let st := fresh "st" in
  let H := fresh "H" in
  intros st H; destruct st; coherent_cases; cbn; auto.

Ltac safe_step :=
  match goal with
  | |- Safe _ (Ret _) => apply Safe_Ret
  | |- Safe _ (Throw _) => apply Safe_Throw
  | |- Safe _ (Get _) =>
      let st := fresh "st" in
      let H := fresh "H" in
      apply Safe_Get; intros st H; destruct st; coherent_cases
  | |- Safe _ (Set_ _ _) =>
      first [ apply Safe_Set with (ph' := AuthPhase); [solve [solve_holds]|]
            | apply Safe_Set with (ph' := AnyPhase); [solve [solve_holds]|] ]
  | |- Safe _ (ConsoleError _ _ _) => apply Safe_ConsoleError
  | |- Safe _ (Fork _ _) =>
      first [ apply Safe_Fork; [solve [neutral]|] | apply Safe_Fork_last ]
  | |- Safe _ (Await _ _) =>
      let x := fresh "x" in apply Safe_Await; intros x; destruct x
  | |- Safe _ (if ?b then _ else _) => destruct b
  | |- Safe _ (match ?x with _ => _ end) => destruct x
  | |- Safe _ (bind (match ?x with _ => _ end) _) => destruct x
  | |- Safe _ (bind (bind (match ?x with _ => _ end) _) _) => destruct x
  end.

Ltac smart := unfold fork, set, console_error, get, await.

Ltac safe := smart; cbn; repeat (safe_step; smart; cbn).

(* ------------------------------------------------------------------ *)
(** ** One action in the foreground *)

(** A caller that awaits an action sees how it settles.  [perform] runs
    one action and answers, reply by reply, the request it is waiting for;
    what the action forks is parked in the pool and stays there. *)
Fixpoint answer (A : Type) (me : nat) (s : Status A) (w : World)
  (replies : list Reply) : Status A * World :=
  match replies with
  | [] => (s, w)
  | reply :: rest =>
      match s with
      | Done _ => (s, w)
      | Suspended r k =>
          let (s', w') := exec me (k (reply r)) w in
          answer me s' w' rest
      end
  end.

Definition perform (A : Type) (p : Proc A) (replies : list Reply) (w : World)
  : Status A * World :=
  let me := next_caller w in
  let (s, w') := exec me p (bump w) in
  answer me s w' replies.

(** How a performed action ended, if it has. *)
Definition result (A : Type) (s : Status A) : option (Outcome A) :=
  match s with
  | Done o => Some o
  | Suspended _ _ => None
  end.

(** [try { body } catch (err) { handler(err.message) }] around an awaited
    action.  The rejection of a forked action is not caught: its promise was
    dropped. *)
Fixpoint try_catch (A : Type) (p : Proc A) (handler : string -> Proc A)
  : Proc A :=
  match p with
  | Ret a => Ret a
  | Throw m => handler m
  | Get k => Get (fun st => try_catch (k st) handler)
  | Set_ partial k => Set_ partial (try_catch k handler)
  | ConsoleError l e k => ConsoleError l e (try_catch k handler)
  | Fork c k => Fork c (try_catch k handler)
  | Await r k => Await r (fun x => try_catch (k x) handler)
  end.

(** [s || fallback] on strings. *)
Definition or_else (s fallback : string) : string :=
  match s with
  | "" => fallback
  | _ => s
  end.

(** The steps that only concern the settings and the error field: the
    settings actions, [clearError], [setError], the effect of the settings
    page, and the responses. *)
Definition settings_step (s : Step) : bool :=
  match s with
  | Invoke CallFetchSettings | Invoke (CallUpdateSettings _)
  | Invoke (CallResetSetting _) | Invoke CallClearError
  | Invoke (CallSetError _) | Invoke MountSettings => true
  | Invoke _ => false
  | Respond _ _ => true
  end.

Module Fixture.

Definition overrides : Api.UserSettings :=
  {| Api.settings_id := "s1"; Api.user_id := "u1";
     Api.google_api_base := Some "https://proxy.example.org";
     Api.mineru_api_base := None; Api.image_caption_model := None;
     Api.max_description_workers := Some 4%Z;
     Api.max_image_workers := None;
     Api.has_google_api_key := true; Api.has_mineru_token := false;
     Api.settings_created_at := "2025-01-01";
     Api.settings_updated_at := "2025-01-02" |}.

Definition effective : Api.EffectiveConfig :=
  {| Api.ec_google_api_key :=
       {| Api.is_set := true; Api.secret_source := Api.user_source |};
     Api.ec_google_api_base :=
       {| Api.value := "https://proxy.example.org";
          Api.source := Api.user_source |};
     Api.ec_mineru_token :=
       {| Api.is_set := false; Api.secret_source := Api.system_source |};
     Api.ec_mineru_api_base :=
       {| Api.value := "https://mineru.net";
          Api.source := Api.system_source |};
     Api.ec_image_caption_model :=
       {| Api.value := "gemini-2.5-flash";
          Api.source := Api.system_source |};
     Api.ec_max_description_workers :=
       {| Api.value := 4%Z; Api.source := Api.user_source |};
     Api.ec_max_image_workers :=
       {| Api.value := 8%Z; Api.source := Api.system_source |} |}.

Definition view : Api.Settings :=
  {| Api.settings := overrides; Api.effective_config := effective |}.

(** A server that accepts every request, the settings ones included. *)
Definition served (token : string) : Reply :=
  fun r =>
    match r return Api.Result (Api.resp_type r) with
    | Api.AuthLogin _ | Api.AuthRegister _ => Api.Ok Sample.session
    | Api.AuthLogout => Api.Ok tt
    | Api.AuthRefresh _ =>
        Api.Ok {| Api.new_access_token := token;
                  Api.new_token_type := "bearer" |}
    | Api.AuthGetCurrentUser => Api.Ok Sample.ann
    | _ => Api.Ok view
    end.

(** A server that refuses every request with [message]. *)
Definition refused (code : Z) (message : string) : Reply :=
  fun r =>
    Api.Err {| Api.response :=
                 Some {| Api.status := code;
                         Api.data_error := Some message |} |}.

End Fixture.

(* ------------------------------------------------------------------ *)
(** ** What a body may write *)

(** A body all of whose [set] calls only hold entries allowed by [ok],
    forked actions included. *)
Inductive Writes (ok : Assign -> bool) : forall A : Type, Proc A -> Prop :=
| Writes_Ret A (a : A) : Writes ok (Ret a)
| Writes_Throw A m : Writes ok (@Throw A m)
| Writes_Get A (k : AuthState -> Proc A) :
    (forall st, Writes ok (k st)) -> Writes ok (Get k)
| Writes_Set A partial (k : Proc A) :
    forallb ok partial = true -> Writes ok k -> Writes ok (Set_ partial k)
| Writes_ConsoleError A l e (k : Proc A) :
    Writes ok k -> Writes ok (ConsoleError l e k)
| Writes_Fork A child (k : Proc A) :
    Writes ok child -> Writes ok k -> Writes ok (Fork child k)
| Writes_Await A r (k : Api.Result (Api.resp_type r) -> Proc A) :
    (forall x, Writes ok (k x)) -> Writes ok (Await r k).

Definition WritesTask (ok : Assign -> bool) (t : Task) : Prop :=
  forall x, Writes ok (resume t x).

(** A world whose store satisfies [Inv] and whose pending actions only
    write what [ok] allows. *)
Definition kept (ok : Assign -> bool) (Inv : AuthState -> Prop)
  (s_ok : Prop) (w : World) : Prop :=
  Inv (store w) /\ Forall (WritesTask ok) (pool w) /\ s_ok.

Definition body_writes (ok : Assign -> bool) (c : Call) : Prop :=
  match body c with
  | inl p => Writes ok p
  | inr p => Writes ok p
  end.

(** The entries a settings action may write. *)
Definition settings_write (a : Assign) : bool :=
  match a with
  | set_settings _ | set_effectiveConfig _ | set_error _ => true
  | _ => false
  end.

(** Every entry but one that puts a refresh token into the store. *)
Definition keeps_refresh_token (a : Assign) : bool :=
  match a with
  | set_refreshToken (Some _) => false
  | _ => true
  end.

(** Every step but the start of [login], [register] or
    [setTokensFromOAuth]. *)
Definition not_signing_in (s : Step) : bool :=
  match s with
  | Invoke (CallLogin _ _ _) | Invoke (CallRegister _ _ _)
  | Invoke (CallSetTokensFromOAuth _ _) => false
  | _ => true
  end.

(* ------------------------------------------------------------------ *)
(** ** JavaScript strings *)

(** A [string] holds a text in UTF-8, as the literals of this file are
    written.  The JavaScript string with that text is a sequence of UTF-16
    code units, and its [.length] is their number: one for a character of
    the basic plane (one to three bytes in UTF-8), two for any other (four
    bytes, a surrogate pair).  So the leading byte of a character counts for
    the whole character and a continuation byte for nothing.  A JavaScript
    string with an unpaired surrogate is no text and has no counterpart
    here. *)

Module Js.

Definition code_units (c : Ascii.ascii) : nat :=
  let byte := Ascii.nat_of_ascii c in
  if Nat.ltb byte 128 then 1            (* 0xxxxxxx *)
  else if Nat.ltb byte 192 then 0       (* 10xxxxxx, a continuation *)
  else if Nat.ltb byte 240 then 1       (* 110xxxxx, 1110xxxx *)
  else 2.                               (* 11110xxx *)

(** [s.length] *)
Fixpoint length (s : string) : nat :=
  match s with
  | EmptyString => 0
  | String c s' => code_units c + length s'
  end.

End Js.

(* ------------------------------------------------------------------ *)
(** ** pages/Register.tsx *)

(** A handler of a page is run like an action of the store.  What it does
    to the state of its component ([setLocalError], [navigate], ...) is
    summed up in the value it returns: the state it leaves behind. *)

Module RegisterPage.

Record Form := {
  username : string;
  email : string;
  password : string;
  confirmPassword : string
}.

Record Shown := {
  localError : string;
  navigated : option string
}.

Definition stay (message : string) : Shown :=
  {| localError := message; navigated := None |}.

Definition handleSubmit (f : Form) : Proc Shown :=
  (* setLocalError(''); clearError(); *)
  clearError ;;
  (* Validation *)
  if (username f =? "")%string || (email f =? "")%string
     || (password f =? "")%string
  then Ret (stay "请填写所有必填项")
  else if Nat.ltb (Js.length (username f)) 3
  then Ret (stay "用户名至少需要3个字符")
  else if Nat.ltb (Js.length (password f)) 6
  then Ret (stay "密码至少需要6个字符")
  else if negb (password f =? confirmPassword f)%string
  then Ret (stay "两次输入的密码不一致")
  else
    try_catch
      (register (username f) (email f) (password f) ;;
       Ret {| localError := ""; navigated := Some "/" |})
      (fun message => Ret (stay (or_else message "注册失败"))).

End RegisterPage.

(* ------------------------------------------------------------------ *)
(** ** pages/AuthCallback.tsx *)

Module AuthCallback.

(** [searchParams.get(...)] for the three parameters the page reads. *)
Record Params := {
  access_token : option string;
  refresh_token : option string;
  error : option string
}.

Record Shown := {
  shown_error : option string;
  navigated : option string
}.

Definition failed (message : string) : Shown :=
  {| shown_error := Some message; navigated := None |}.

(** [decodeURIComponent] is the browser's; it returns the decoded text or
    throws a [URIError]. *)
Definition handleCallback (decodeURIComponent : string -> Outcome string)
  (searchParams : Params) : Proc Shown :=
  match error searchParams with
  | Some (String _ _ as errorParam) =>
      match decodeURIComponent errorParam with
      | Returned text => Ret (failed text)
      | Threw m => Throw m
      end
  | _ =>
      match access_token searchParams, refresh_token searchParams with
      | Some (String _ _ as accessToken), Some (String _ _ as refreshToken) =>
          try_catch
            (setTokensFromOAuth accessToken refreshToken ;;
             Ret {| shown_error := None; navigated := Some "/" |})
            (fun _ => Ret (failed "登录失败，请重试"))
      | _, _ => Ret (failed "无效的回调参数")
      end
  end.

End AuthCallback.

(* ------------------------------------------------------------------ *)
(** ** pages/Settings.tsx *)

Module SettingsPage.

(** The inputs of the form.  The two worker counts are [number | '']:
    [None] is the empty input. *)
Record Form := {
  googleApiKey : string;
  googleApiBase : string;
  mineruToken : string;
  mineruApiBase : string;
  imageCaptionModel : string;
  maxDescriptionWorkers : option Z;
  maxImageWorkers : option Z
}.

Inductive MessageType := success | error.

Record Page := {
  form : Form;
  isSaving : bool;
  message : option (MessageType * string)
}.

(** The form of a freshly mounted page. *)
Definition empty_form : Form :=
  {| googleApiKey := ""; googleApiBase := ""; mineruToken := "";
     mineruApiBase := ""; imageCaptionModel := "";
     maxDescriptionWorkers := None; maxImageWorkers := None |}.

(** [value || ''] on a [string | null] *)
Definition string_or_empty (v : option string) : string :=
  match v with Some s => s | None => "" end.

(** [value || ''] on a [number | null]: zero is falsy. *)
Definition number_or_empty (v : option Z) : option Z :=
  match v with
  | Some 0%Z | None => None
  | Some n => Some n
  end.

(** The effect that fills the form from [settings]; the two secret inputs
    are not filled. *)
Definition populate (settings : option Api.UserSettings) (f : Form) : Form :=
  match settings with
  | Some s =>
      {| googleApiKey := googleApiKey f;
         googleApiBase := string_or_empty (Api.google_api_base s);
         mineruToken := mineruToken f;
         mineruApiBase := string_or_empty (Api.mineru_api_base s);
         imageCaptionModel := string_or_empty (Api.image_caption_model s);
         maxDescriptionWorkers :=
           number_or_empty (Api.max_description_workers s);
         maxImageWorkers := number_or_empty (Api.max_image_workers s) |}
  | None => f
  end.

(** [value || undefined] *)
Definition given (s : string) : option string :=
  match s with "" => None | _ => Some s end.

(** [value ? Number(value) : undefined] *)
Definition given_number (v : option Z) : option Z := number_or_empty v.

(** The argument [handleSave] hands to [updateSettings]. *)
Definition request_of (f : Form) : Api.UpdateSettingsRequest :=
  {| Api.new_google_api_key := given (googleApiKey f);
     Api.new_google_api_base := given (googleApiBase f);
     Api.new_mineru_token := given (mineruToken f);
     Api.new_mineru_api_base := given (mineruApiBase f);
     Api.new_image_caption_model := given (imageCaptionModel f);
     Api.new_max_description_workers :=
       given_number (maxDescriptionWorkers f);
     Api.new_max_image_workers := given_number (maxImageWorkers f) |}.

(** [setGoogleApiKey(''); setMineruToken('');] *)
Definition clear_secrets (f : Form) : Form :=
  {| googleApiKey := ""; googleApiBase := googleApiBase f;
     mineruToken := ""; mineruApiBase := mineruApiBase f;
     imageCaptionModel := imageCaptionModel f;
     maxDescriptionWorkers := maxDescriptionWorkers f;
     maxImageWorkers := maxImageWorkers f |}.

Definition handleSave (p : Page) : Proc Page :=
  (* setIsSaving(true); setMessage(null); *)
  try_catch
    (updateSettings (request_of (form p)) ;;
     (* Clear sensitive fields after saving *)
     Ret {| form := clear_secrets (form p); isSaving := false;
            message := Some (success, "设置已保存") |})
    (fun m =>
       Ret {| form := form p; isSaving := false;
              message := Some (error, or_else m "保存失败") |}).

Definition handleResetSetting (key : string) (p : Page) : Proc Page :=
  try_catch
    (resetSetting key ;;
     Ret {| form := form p; isSaving := isSaving p;
            message := Some (success, key ++ " 已重置为系统默认值")%string |})
    (fun m =>
       Ret {| form := form p; isSaving := isSaving p;
              message := Some (error, or_else m "重置失败") |}).

End SettingsPage.

(* ------------------------------------------------------------------ *)
(** ** pages/ForgotPassword.tsx *)

(** [s.includes(sub)] *)
Definition includes (sub s : string) : bool :=
  match index 0 sub s with
  | Some _ => true
  | None => false
  end.

(** [value || fallback] on a [string | undefined] *)
Definition text_or (v : option string) (fallback : string) : string :=
  match v with
  | None | Some "" => fallback
  | Some s => s
  end.

(** The page calls [authApi] itself and keeps everything in the state of
    its component.  Each handler awaits one call; it is given here as the
    state it leaves behind and the request it sent, if any, as a function
    of the answer to that request. *)
Module ForgotPassword.

(** ['email' | 'verify' | 'reset' | 'success'] *)
Inductive StepName := email_step | verify | reset | success.

Record State := {
  step : StepName;
  email : string;
  verificationCode : string;
  newPassword : string;
  confirmPassword : string;
  error : string;
  successMessage : string;
  isLoading : bool;
  isSendingCode : bool;
  countdown : Z
}.

(** [useState] initial values. *)
Definition initial : State :=
  {| step := email_step; email := ""; verificationCode := "";
     newPassword := ""; confirmPassword := ""; error := "";
     successMessage := ""; isLoading := false; isSendingCode := false;
     countdown := 0 |}.

(** What a [catch] block reads: [err.response?.data?.error] and
    [err.response?.data?.wait_seconds]. *)
Record Failure := {
  data_error : option string;
  wait_seconds : option Z
}.

Inductive Settled (A : Type) :=
| Ok (response : A)
| Err (err : Failure).

Arguments Err {A} err.

(** [{ message, expires_in }] *)
Record CodeSent := { message : string; expires_in : Z }.

(** [{ valid, error? }] *)
Record CodeChecked := { valid : bool; check_error : option string }.

Inductive Sent :=
| SendVerificationCode (email code_type : string)
| VerifyCode (email code code_type : string)
| ResetPassword (email verification_code new_password : string).

(** The state with the inputs as they are and the rest as given. *)
Definition update (s : State) (step' : StepName)
  (error' successMessage' : string) (isLoading' isSendingCode' : bool)
  (countdown' : Z) : State :=
  {| step := step'; email := email s;
     verificationCode := verificationCode s;
     newPassword := newPassword s; confirmPassword := confirmPassword s;
     error := error'; successMessage := successMessage';
     isLoading := isLoading'; isSendingCode := isSendingCode';
     countdown := countdown' |}.

Definition handleSendCode (s : State) (reply : Settled CodeSent)
  : State * option Sent :=
  if (email s =? "")%string || negb (includes "@" (email s)) then
    (update s (step s) "请输入有效的邮箱地址" "" (isLoading s)
       (isSendingCode s) (countdown s), None)
  else
    let sent := Some (SendVerificationCode (email s) "reset_password") in
    match reply with
    | Ok response =>
        (update s verify "" (message response) (isLoading s) false 60, sent)
    | Err err =>
        (update s (step s) (text_or (data_error err) "发送验证码失败") ""
           (isLoading s) false
           match wait_seconds err with
           | Some 0%Z | None => countdown s
           | Some seconds => seconds
           end, sent)
    end.

Definition handleVerifyCode (s : State) (reply : Settled CodeChecked)
  : State * option Sent :=
  if negb (Nat.eqb (Js.length (verificationCode s)) 6) then
    (update s (step s) "请输入6位验证码" "" (isLoading s) (isSendingCode s)
       (countdown s), None)
  else
    let sent :=
      Some (VerifyCode (email s) (verificationCode s) "reset_password") in
    match reply with
    | Ok response =>
        if valid response then
          (update s reset "" "" false (isSendingCode s) (countdown s), sent)
        else
          (update s (step s) (text_or (check_error response) "验证码无效") ""
             false (isSendingCode s) (countdown s), sent)
    | Err err =>
        (update s (step s) (text_or (data_error err) "验证失败") "" false
           (isSendingCode s) (countdown s), sent)
    end.

Definition handleResetPassword (s : State) (reply : Settled unit)
  : State * option Sent :=
  if Nat.ltb (Js.length (newPassword s)) 6 then
    (update s (step s) "密码长度不能少于6位" "" (isLoading s)
       (isSendingCode s) (countdown s), None)
  else if negb (newPassword s =? confirmPassword s)%string then
    (update s (step s) "两次输入的密码不一致" "" (isLoading s)
       (isSendingCode s) (countdown s), None)
  else
    let sent :=
      Some (ResetPassword (email s) (verificationCode s) (newPassword s)) in
    match reply with
    | Ok _ =>
        (update s success "" "" false (isSendingCode s) (countdown s), sent)
    | Err err =>
        (update s (step s) (text_or (data_error err) "重置密码失败") "" false
           (isSendingCode s) (countdown s), sent)
    end.

(** The countdown effect, once its timer of one second has fired. *)
Definition tick (s : State) : State :=
  if (0 <? countdown s)%Z then
    update s (step s) (error s) (successMessage s) (isLoading s)
      (isSendingCode s) (countdown s - 1)
  else s.

(** [disabled={isSendingCode || countdown > 0 || !email}] *)
Definition send_disabled (s : State) : bool :=
  isSendingCode s || (0 <? countdown s)%Z || (email s =? "")%string.

(** [disabled={isSendingCode || countdown > 0}] *)
Definition resend_disabled (s : State) : bool :=
  isSendingCode s || (0 <? countdown s)%Z.

(** [\D] matches every code unit but the ten ASCII digits. *)
Definition is_digit (c : Ascii.ascii) : bool :=
  Nat.leb 48 (Ascii.nat_of_ascii c) && Nat.leb (Ascii.nat_of_ascii c) 57.

Fixpoint digits_only (s : string) : string :=
  match s with
  | "" => ""
  | String c s' =>
      if is_digit c then String c (digits_only s') else digits_only s'
  end.

(** The [onChange] of the code input:
    [setVerificationCode(e.target.value.replace(/\D/g, '').slice(0, 6))] *)
Definition typeCode (value : string) (s : State) : State :=
  {| step := step s; email := email s;
     verificationCode := substring 0 6 (digits_only value);
     newPassword := newPassword s; confirmPassword := confirmPassword s;
     error := error s; successMessage := successMessage s;
     isLoading := isLoading s; isSendingCode := isSendingCode s;
     countdown := countdown s |}.

(** The [onChange] of the other three inputs. *)
Definition typeEmail (value : string) (s : State) : State :=
  {| step := step s; email := value;
     verificationCode := verificationCode s;
     newPassword := newPassword s; confirmPassword := confirmPassword s;
     error := error s; successMessage := successMessage s;
     isLoading := isLoading s; isSendingCode := isSendingCode s;
     countdown := countdown s |}.

Definition typeNewPassword (value : string) (s : State) : State :=
  {| step := step s; email := email s;
     verificationCode := verificationCode s;
     newPassword := value; confirmPassword := confirmPassword s;
     error := error s; successMessage := successMessage s;
     isLoading := isLoading s; isSendingCode := isSendingCode s;
     countdown := countdown s |}.

Definition typeConfirmPassword (value : string) (s : State) : State :=
  {| step := step s; email := email s;
     verificationCode := verificationCode s;
     newPassword := newPassword s; confirmPassword := value;
     error := error s; successMessage := successMessage s;
     isLoading := isLoading s; isSendingCode := isSendingCode s;
     countdown := countdown s |}.

(** One thing that happens on the page: the user types into an input, a
    handler runs to its end with the answer it got, or the countdown
    ticks. *)
Inductive Happening :=
| TypeEmail (value : string)
| TypeCode (value : string)
| TypeNewPassword (value : string)
| TypeConfirmPassword (value : string)
| SendCode (reply : Settled CodeSent)
| CheckCode (reply : Settled CodeChecked)
| ResetIt (reply : Settled unit)
| Tick.

(** The state after a happening and the request it sent, if any. *)
Definition happen (s : State) (h : Happening) : State * option Sent :=
  match h with
  | TypeEmail v => (typeEmail v s, None)
  | TypeCode v => (typeCode v s, None)
  | TypeNewPassword v => (typeNewPassword v s, None)
  | TypeConfirmPassword v => (typeConfirmPassword v s, None)
  | SendCode reply => handleSendCode s reply
  | CheckCode reply => handleVerifyCode s reply
  | ResetIt reply => handleResetPassword s reply
  | Tick => (tick s, None)
  end.

(** A run of the page: the state it ends in and the requests it sent,
    oldest first. *)
Fixpoint history (hs : list Happening) (s : State) : State * list Sent :=
  match hs with
  | [] => (s, [])
  | h :: rest =>
      let (s', sent) := happen s h in
      let (s'', more) := history rest s' in
      (s'', match sent with Some q => q :: more | None => more end)
  end.

End ForgotPassword.

(* ------------------------------------------------------------------ *)
(** ** utils/index.ts : error messages *)

Module Utils.

(** The ASCII double quote. *)
Definition dq : string :=
  String (Ascii.Ascii false true false false false true false false) "".

Definition no_template : string :=
  ("当前项目还没有模板，请先点击页面工具栏的" ++ dq ++ "更换模板" ++ dq
   ++ "按钮，选择或上传一张模板图片后再生成。")%string.

Definition no_description : string :=
  ("该页面还没有描述内容，请先在" ++ dq ++ "编辑页面描述" ++ dq
   ++ "步骤为此页生成或填写描述。")%string.

Definition image_exists : string :=
  ("该页面已经有图片，如需重新生成，请在生成时选择" ++ dq ++ "重新生成" ++ dq
   ++ "或稍后重试。")%string.

Definition key_not_configured : string :=
  ("🔑 Google API Key 未配置。请登录后在" ++ dq ++ "设置" ++ dq
   ++ "页面配置您的 API Key，或联系管理员。")%string.

Definition key_invalid : string :=
  ("🔑 API Key 无效。请检查您在" ++ dq ++ "设置" ++ dq
   ++ "页面配置的 API Key 是否正确。")%string.

(** [toLowerCase] is the built-in [String.prototype.toLowerCase]. *)
Definition normalizeErrorMessage (toLowerCase : string -> string)
  (errorMessage : option string) : string :=
  match errorMessage with
  | None | Some "" => "操作失败"
  | Some errorMessage =>
      let message := toLowerCase errorMessage in
      if includes "no template image found" message then no_template
      else if includes "page must have description content" message
      then no_description
      else if includes "image already exists" message then image_exists
      else if includes "api key" message
              && (includes "未配置" message
                  || includes "not configured" message
                  || includes "not valid" message)
      then key_not_configured
      else if includes "api key not valid" message
              || includes "invalid api key" message
      then key_invalid
      else errorMessage
  end.

(** [error.response.data.error] as the backend sends it: absent, a string,
    or an object [{ code, message }]. *)
Inductive ErrorField :=
| NoError
| ErrorText (text : string)
| ErrorObject (message : option string).

Record Data := {
  data_error : ErrorField;
  data_message : option string
}.

(** What [extractErrorMessage] reads of the value it is given:
    [error.response?.data] and [error.message]. *)
Record Failure := {
  response_data : option Data;
  failure_message : option string
}.

Definition extractErrorMessage (error : Failure) : string :=
  let fallthrough :=
    (* 2. error.message, 3. the default *)
    text_or (failure_message error) "操作失败" in
  match response_data error with
  | Some data =>
      match data_error data, data_message data with
      | ErrorObject (Some (String _ _ as m)), _ => m
      | _, Some (String _ _ as m) => m
      | ErrorText text, _ => text
      | _, _ => fallthrough
      end
  | None => fallthrough
  end.

End Utils.

(* ------------------------------------------------------------------ *)
(** ** utils/index.ts : debounce and throttle *)

(** The two wrappers keep a variable in their closure and use the
    browser's timers.  A state holds that variable, the timers set and not
    yet fired or cleared (with what their callback will do), the next
    timer id ([setTimeout] returns positive integers) and the arguments
    [func] has been called with so far, oldest first.  Things happen one at
    a time: the wrapper is called, or a timer fires. *)
Module Timing.

Section Wrappers.

Variable Args : Type.

Inductive Happening :=
| CallIt (args : Args)
| Fire (id : nat).

(** *** [debounce(func, wait)] *)

Record Debounced := {
  timeout : option nat;                 (* ReturnType<typeof setTimeout> | null *)
  timers : list (nat * Args);           (* () => func(...args) *)
  next_timer : nat;
  invoked : list Args
}.

Definition debounce : Debounced :=
  {| timeout := None; timers := []; next_timer := 1; invoked := [] |}.

Definition clearTimeout (id : nat) (l : list (nat * Args))
  : list (nat * Args) :=
  filter (fun t => negb (Nat.eqb (fst t) id)) l.

Definition find_timer (id : nat) (l : list (nat * Args)) : option Args :=
  match filter (fun t => Nat.eqb (fst t) id) l with
  | t :: _ => Some (snd t)
  | [] => None
  end.

Definition debounced (s : Debounced) (h : Happening) : Debounced :=
  match h with
  | CallIt args =>
      (* if (timeout) clearTimeout(timeout); *)
      let kept := match timeout s with
                  | Some id => clearTimeout id (timers s)
                  | None => timers s
                  end in
      (* timeout = setTimeout(() => func(...args), wait); *)
      {| timeout := Some (next_timer s);
         timers := kept ++ [(next_timer s, args)];
         next_timer := S (next_timer s);
         invoked := invoked s |}
  | Fire id =>
      match find_timer id (timers s) with
      | Some args =>
          {| timeout := timeout s;
             timers := clearTimeout id (timers s);
             next_timer := next_timer s;
             invoked := invoked s ++ [args] |}
      | None => s
      end
  end.

(** *** [throttle(func, limit)] *)

(** The closure calls [func(...args)] before it sets [inThrottle] and the
    timer, and [func] is the caller's: it may return, it may throw, and it
    may call the throttled function again before it ends.  So what happens
    to a throttled function is one of: it is called (from outside, or from
    inside a running [func]); the innermost running [func] returns or
    throws; a timer fires. *)
Inductive Moment :=
| Called (args : Args)
| FuncReturns
| FuncThrows
| TimerFires (id : nat).

Record Throttled := {
  inThrottle : bool;                    (* undefined at first: falsy *)
  resets : list nat;                    (* () => (inThrottle = false) *)
  next_reset : nat;
  running : list Args;                  (* calls of func not yet ended,
                                           innermost first *)
  called : list Args;                   (* every call of func, oldest first *)
  reentries : nat                       (* those made while func was running *)
}.

Definition throttle : Throttled :=
  {| inThrottle := false; resets := []; next_reset := 1; running := [];
     called := []; reentries := 0 |}.

(** A moment that cannot happen leaves everything as it is: [func] ends
    only when it runs, and a timer fires only when no code is running. *)
Definition throttled (s : Throttled) (m : Moment) : Throttled :=
  match m with
  | Called args =>
      if negb (inThrottle s) then
        (* func(...args) begins *)
        {| inThrottle := inThrottle s;
           resets := resets s;
           next_reset := next_reset s;
           running := args :: running s;
           called := called s ++ [args];
           reentries := match running s with
                        | [] => reentries s
                        | _ :: _ => S (reentries s)
                        end |}
      else s
  | FuncReturns =>
      match running s with
      | _ :: outer =>
          (* inThrottle = true; setTimeout(() => (inThrottle = false), limit); *)
          {| inThrottle := true;
             resets := resets s ++ [next_reset s];
             next_reset := S (next_reset s);
             running := outer;
             called := called s;
             reentries := reentries s |}
      | [] => s
      end
  | FuncThrows =>
      match running s with
      | _ :: outer =>
          (* the exception leaves the closure: the two statements after
             the call are skipped *)
          {| inThrottle := inThrottle s;
             resets := resets s;
             next_reset := next_reset s;
             running := outer;
             called := called s;
             reentries := reentries s |}
      | [] => s
      end
  | TimerFires id =>
      match running s with
      | [] =>
          if existsb (Nat.eqb id) (resets s) then
            {| inThrottle := false;
               resets := filter (fun t => negb (Nat.eqb t id)) (resets s);
               next_reset := next_reset s;
               running := running s;
               called := called s;
               reentries := reentries s |}
          else s
      | _ :: _ => s
      end
  end.

Definition timer_fires (ms : list Moment) : nat :=
  length (filter (fun m => match m with TimerFires _ => true | _ => false end)
            ms).

Definition throws (ms : list Moment) : nat :=
  length (filter (fun m => match m with FuncThrows => true | _ => false end)
            ms).

(** A call from outside whose [func] returns, and one whose [func]
    throws. *)
Definition returning (args : Args) : list Moment := [Called args; FuncReturns].
Definition throwing (args : Args) : list Moment := [Called args; FuncThrows].

End Wrappers.

End Timing.

(** What holds of a debounced function at any time: at most one timer is
    set, and it is the one the closure remembers. *)
Definition debounce_tidy (Args : Type) (s : Timing.Debounced Args) : Prop :=
  Timing.timers s = [] \/
  exists id args,
    Timing.timers s = [(id, args)] /\ Timing.timeout s = Some id.

(** Whether the next call from outside is already paid for: [func] is
    running, or the window is closed. *)
Definition throttle_busy (Args : Type) (s : Timing.Throttled Args) : nat :=
  match Timing.running s with
  | [] => if Timing.inThrottle s then 1 else 0
  | _ :: _ => 1
  end.

(* ------------------------------------------------------------------ *)
(** ** More tactics *)

(** Case analysis on whatever a run is stuck on: a field of the store, a
    token, an answer of the server. *)
Ltac stuck_cases :=
  repeat (cbn; unfold fetchCurrentUser_settled;
          match goal with
          | |- context [match ?x with _ => _ end] => is_var x; destruct x
          | |- context [if unauthorized ?e then _ else _] =>
              destruct (unauthorized e)
          | |- context [match ?r ?q with _ => _ end] =>
              is_var r; destruct (r q)
          end);
  cbn.

Ltac writes :=
  unfold fork, set, console_error, get, await;
  repeat first
    [ progress cbn
    | progress unfold fetchCurrentUser_settled
    | match goal with
      | |- Writes _ (if ?b then _ else _) => destruct b
      | |- Writes _ (match ?x with _ => _ end) => destruct x
      | |- Writes _ (bind (match ?x with _ => _ end) _) => destruct x
      | |- Writes _ (bind (bind (match ?x with _ => _ end) _) _) =>
          destruct x
      | |- forall _, _ => intro
      end
    | constructor ].


(* ------------------------------------------------------------------ *)
(** ** Single actions *)

Lemma truthy_some (o : option string) :
  truthy o = true -> exists c s, o = Some (String c s).
Proof.
  destruct o as [[|c s]|]; cbn; try discriminate. intros _. now exists c, s.
Qed.

(** C10. With no access token in the store, [fetchCurrentUser] returns at
    its first line: no request is issued, nothing is left pending, no
    field of the store changes (so the persisted flag is neither confirmed
    nor cleared) and the call settles normally. *)
Theorem fetchCurrentUser_without_token_is_noop (w : World) :
  accessToken (store w) = None ->
  let w' := invoke CallFetchCurrentUser w in
  store w' = store w /\
  partialize (store w') = partialize (store w) /\
  requests (trace w') = requests (trace w) /\
  pool w' = pool w /\
  trace w' = trace w ++ [EvSettled (next_caller w) (Returned VVoid)].
Proof.
  intros H. unroll. rewrite H. cbn. repeat split.
  induction (trace w) as [|[] t IH]; cbn; congruence.
Qed.

Lemma fetchCurrentUser_without_token_is_noop_witness :
  let w := init_world Sample.flag_only in
  let w' := invoke CallFetchCurrentUser w in
  store w' = store w /\
  partialize (store w') = partialize (store w) /\
  requests (trace w') = requests (trace w) /\
  pool w' = pool w /\
  trace w' = trace w ++ [EvSettled (next_caller w) (Returned VVoid)].
Proof.
  apply (fetchCurrentUser_without_token_is_noop (init_world Sample.flag_only)).
  reflexivity.
Defined.

(** C9. [logout] clears the local session whatever the remote call
    answers; a remote failure is swallowed: the call settles normally,
    nothing is written to [error] and nothing is logged. *)
Theorem logout_clears_session_whatever_the_server_says
  (st : AuthState) (reply : Reply) :
  let w := run [Invoke CallLogout; Respond 0 reply] (init_world st) in
  user (store w) = None /\
  accessToken (store w) = None /\
  refreshToken (store w) = None /\
  isAuthenticated (store w) = false /\
  settings (store w) = None /\
  effectiveConfig (store w) = None /\
  error (store w) = error st /\
  outcome_of 0 (trace w) = Some (Returned VVoid) /\
  trace w = [ EvRequest 0 (currentAccessToken st) Api.AuthLogout;
              EvSet clearSession; EvSettled 0 (Returned VVoid) ] /\
  pool w = [].
Proof.
  unroll. destruct (reply Api.AuthLogout); cbn; repeat split.
Qed.

(** C4. When the refresh exchange fails, [set] is called with the
    [clearSession] literal exactly once: user, both tokens, settings and
    effective configuration are absent afterwards and [isAuthenticated] is
    false.  [refreshAccessToken] reports [false]. *)
Theorem failed_refresh_clears_session_once
  (st : AuthState) (reply : Reply) (token : string) (e : Api.Error) :
  refreshToken st = Some token ->
  token <> "" ->
  reply (Api.AuthRefresh token) = Api.Err e ->
  let w := run [Invoke CallRefreshAccessToken; Respond 0 reply]
               (init_world st) in
  count is_clearSession (trace w) = 1 /\
  user (store w) = None /\
  accessToken (store w) = None /\
  refreshToken (store w) = None /\
  settings (store w) = None /\
  effectiveConfig (store w) = None /\
  isAuthenticated (store w) = false /\
  requests (trace w) = [Api.AuthRefresh token] /\
  outcome_of 0 (trace w) = Some (Returned (VBool false)) /\
  pool w = [].
Proof.
  intros Ht Hne Hr. open_state st. nonempty token.
  unroll. rewrite Hr. cbn. repeat split.
Qed.

Lemma failed_refresh_clears_session_once_witness :
  let w := run [Invoke CallRefreshAccessToken;
                Respond 0 (Sample.rejected (Sample.http 401))]
               (init_world Sample.signed_in) in
  count is_clearSession (trace w) = 1 /\
  user (store w) = None /\
  accessToken (store w) = None /\
  refreshToken (store w) = None /\
  settings (store w) = None /\
  effectiveConfig (store w) = None /\
  isAuthenticated (store w) = false /\
  requests (trace w) = [Api.AuthRefresh "r1"] /\
  outcome_of 0 (trace w) = Some (Returned (VBool false)) /\
  pool w = [].
Proof.
  apply (@failed_refresh_clears_session_once Sample.signed_in
           (Sample.rejected (Sample.http 401)) "r1" (Sample.http 401)).
  - reflexivity.
  - discriminate.
  - reflexivity.
Defined.

(** The same through [fetchCurrentUser]: an unauthorized response followed
    by a failed refresh clears the session once, and only [isLoading] is
    touched afterwards. *)
Lemma fetchCurrentUser_failed_refresh
  (st : AuthState) (r1 r2 : Reply) (token : string) (e1 e2 : Api.Error) :
  truthy (accessToken st) = true ->
  refreshToken st = Some token ->
  token <> "" ->
  r1 Api.AuthGetCurrentUser = Api.Err e1 ->
  unauthorized e1 = true ->
  r2 (Api.AuthRefresh token) = Api.Err e2 ->
  let w := run [Invoke CallFetchCurrentUser; Respond 0 r1; Respond 0 r2]
               (init_world st) in
  count is_clearSession (trace w) = 1 /\
  store w = {| user := None; accessToken := None; refreshToken := None;
               isAuthenticated := false; isLoading := false;
               error := error st; settings := None;
               effectiveConfig := None |} /\
  outcome_of 0 (trace w) = Some (Returned VVoid) /\
  pool w = [].
Proof.
  intros Ha Ht Hne H1 Hu H2.
  apply truthy_some in Ha as (c & s & Ha).
  open_state st. nonempty token.
  unroll. rewrite H1. cbn. rewrite Hu. cbn. rewrite H2. cbn. repeat split.
Qed.

(** C7. A successful refresh exchange replaces the access token and
    nothing else.  Inside [fetchCurrentUser] the call is then issued once
    more, at a moment when the store already holds the new access token,
    and whatever the retry answers no further request follows: two
    [getCurrentUser] requests in all. *)
Theorem successful_refresh_replaces_only_access_token
  (st : AuthState) (r1 r2 r3 : Reply) (token : string) (e1 : Api.Error)
  (fresh : Api.Refreshed) :
  truthy (accessToken st) = true ->
  refreshToken st = Some token ->
  token <> "" ->
  r1 Api.AuthGetCurrentUser = Api.Err e1 ->
  unauthorized e1 = true ->
  r2 (Api.AuthRefresh token) = Api.Ok fresh ->
  (* the exchange on its own *)
  (let w := run [Invoke CallRefreshAccessToken; Respond 0 r2]
                (init_world st) in
   store w = {| user := user st;
                accessToken := Some (Api.new_access_token fresh);
                refreshToken := refreshToken st;
                isAuthenticated := isAuthenticated st;
                isLoading := isLoading st; error := error st;
                settings := settings st;
                effectiveConfig := effectiveConfig st |} /\
   trace w = [ EvRequest 0 (currentAccessToken st) (Api.AuthRefresh token);
               EvSet [set_accessToken (Some (Api.new_access_token fresh))];
               EvSettled 0 (Returned (VBool true)) ] /\
   pool w = []) /\
  (* the exchange and the retry inside fetchCurrentUser *)
  (let w := run [Invoke CallFetchCurrentUser; Respond 0 r1; Respond 0 r2]
                (init_world st) in
   accessToken (store w) = Some (Api.new_access_token fresh) /\
   refreshToken (store w) = refreshToken st /\
   user (store w) = user st /\
   isAuthenticated (store w) = isAuthenticated st /\
   settings (store w) = settings st /\
   effectiveConfig (store w) = effectiveConfig st /\
   in_flight w = [Api.AuthGetCurrentUser] /\
   last (trace w) (EvSet []) =
     EvRequest 0 (Some (Api.new_access_token fresh)) Api.AuthGetCurrentUser /\
   let w' := respond 0 r3 w in
   count is_get_current_user (requests (trace w')) = 2 /\
   count is_refresh (requests (trace w')) = 1 /\
   pool w' = []).
Proof.
  intros Ha Ht Hne H1 Hu H2.
  apply truthy_some in Ha as (c & s & Ha).
  open_state st. nonempty token. split.
  - unroll. rewrite H2. cbn. repeat split.
  - unroll. rewrite H1. cbn. rewrite Hu. cbn. rewrite H2. cbn.
    repeat split; destruct (r3 Api.AuthGetCurrentUser); reflexivity.
Qed.

Lemma successful_refresh_replaces_only_access_token_witness :
  let w := run [Invoke CallFetchCurrentUser;
                Respond 0 (Sample.rejected (Sample.http 401));
                Respond 0 (Sample.accepted "a2")]
               (init_world Sample.signed_in) in
  accessToken (store w) = Some "a2" /\
  refreshToken (store w) = Some "r1" /\
  in_flight w = [Api.AuthGetCurrentUser] /\
  count is_get_current_user
    (requests (trace (respond 0 (Sample.accepted "a3") w))) = 2.
Proof.
  destruct (@successful_refresh_replaces_only_access_token
              Sample.signed_in (Sample.rejected (Sample.http 401))
              (Sample.accepted "a2") (Sample.accepted "a3") "r1"
              (Sample.http 401)
              {| Api.new_access_token := "a2";
                 Api.new_token_type := "bearer" |}
              eq_refl eq_refl ltac:(discriminate) eq_refl eq_refl eq_refl)
    as [_ (Ha & Hr & _ & _ & _ & _ & Hf & _ & Hc & _)].
  exact (conj Ha (conj Hr (conj Hf Hc))).
Defined.

(** C2, as the claim has it, fails: with an expired access token and no
    refresh token, [fetchCurrentUser] settles normally (nothing is
    propagated) and the session is still there. *)
Lemma no_refresh_token_counterexample :
  let w := run [Invoke CallFetchCurrentUser;
                Respond 0 (Sample.rejected (Sample.http 401))]
               (init_world Sample.no_refresh_token) in
  refreshToken Sample.no_refresh_token = None /\
  unauthorized (Sample.http 401) = true /\
  pool w = [] /\
  outcome_of 0 (trace w) = Some (Returned VVoid) /\
  user (store w) = Some Sample.ann /\
  accessToken (store w) = Some "a1" /\
  isAuthenticated (store w) = true /\
  count is_clearSession (trace w) = 0.
Proof. repeat split. Qed.

(** C2, amended.  With no usable refresh token, [refreshAccessToken]
    returns [false] at its guard: no request, no write.  An unauthorized
    [fetchCurrentUser] then only resets [isLoading]; it settles normally
    and user, tokens, flag, settings and effective configuration stay as
    they were. *)
Theorem no_refresh_token_keeps_session
  (st : AuthState) (reply : Reply) (e : Api.Error) :
  truthy (accessToken st) = true ->
  truthy (refreshToken st) = false ->
  reply Api.AuthGetCurrentUser = Api.Err e ->
  unauthorized e = true ->
  (let w := invoke CallRefreshAccessToken (init_world st) in
   store w = st /\
   trace w = [EvSettled 0 (Returned (VBool false))] /\
   pool w = []) /\
  (let w := run [Invoke CallFetchCurrentUser; Respond 0 reply]
                (init_world st) in
   store w = {| user := user st; accessToken := accessToken st;
                refreshToken := refreshToken st;
                isAuthenticated := isAuthenticated st;
                isLoading := false; error := error st;
                settings := settings st;
                effectiveConfig := effectiveConfig st |} /\
   requests (trace w) = [Api.AuthGetCurrentUser] /\
   count is_clearSession (trace w) = 0 /\
   outcome_of 0 (trace w) = Some (Returned VVoid) /\
   pool w = []).
Proof.
  intros Ha Hr H1 Hu.
  apply truthy_some in Ha as (c & s & Ha).
  open_state st. split.
  - unroll. destruct ref as [[|? ?]|]; try discriminate;
      cbn; repeat split.
  - unroll. rewrite H1. cbn. rewrite Hu. cbn.
    destruct ref as [[|? ?]|]; try discriminate;
      cbn; repeat split.
Qed.

Lemma no_refresh_token_keeps_session_witness :
  let w := run [Invoke CallFetchCurrentUser;
                Respond 0 (Sample.rejected (Sample.http 401))]
               (init_world Sample.no_refresh_token) in
  store w = Sample.no_refresh_token /\
  requests (trace w) = [Api.AuthGetCurrentUser] /\
  outcome_of 0 (trace w) = Some (Returned VVoid).
Proof.
  destruct (@no_refresh_token_keeps_session Sample.no_refresh_token
              (Sample.rejected (Sample.http 401)) (Sample.http 401)
              eq_refl eq_refl eq_refl eq_refl)
    as [_ (Hs & Hq & _ & Ho & _)].
  exact (conj Hs (conj Hq Ho)).
Defined.

(** The states of the store's own making hold both tokens or none (the
    session invariant, proved further down), so the guard of
    [refreshAccessToken] is met after the session has gone: here a [logout]
    overtakes the pending call.  The call still settles normally, and the
    only clearing is the one of [logout]. *)
Remark unauthorized_after_logout :
  let w := run [Invoke CallFetchCurrentUser; Invoke CallLogout;
                Respond 1 (Sample.accepted "a1");
                Respond 0 (Sample.rejected (Sample.http 401))]
               (init_world Sample.signed_in) in
  requests (trace w) = [Api.AuthGetCurrentUser; Api.AuthLogout] /\
  outcome_of 0 (trace w) = Some (Returned VVoid) /\
  count is_clearSession (trace w) = 1 /\
  pool w = [].
Proof. repeat split. Qed.

(** C1, as the claim has it, fails: unauthorized, refreshed, unauthorized
    again, and the session is still there, with the new access token. *)
Lemma second_unauthorized_counterexample :
  let w := run [Invoke CallFetchCurrentUser;
                Respond 0 (Sample.rejected (Sample.http 401));
                Respond 0 (Sample.accepted "a2");
                Respond 0 (Sample.rejected (Sample.http 401))]
               (init_world Sample.signed_in) in
  requests (trace w) =
    [Api.AuthGetCurrentUser; Api.AuthRefresh "r1"; Api.AuthGetCurrentUser] /\
  pool w = [] /\
  isAuthenticated (store w) = true /\
  accessToken (store w) = Some "a2" /\
  refreshToken (store w) = Some "r1".
Proof. repeat split. Qed.

(** C1, amended.  After an unauthorized response, a successful refresh and
    a retry that fails (for whatever reason), [fetchCurrentUser] stops: it
    resets [isLoading], issues no further request and settles normally.
    The session is kept: flag, user and refresh token as before, the access
    token being the refreshed one. *)
Theorem second_unauthorized_keeps_session
  (st : AuthState) (r1 r2 r3 : Reply) (token : string) (e1 e3 : Api.Error)
  (fresh : Api.Refreshed) :
  truthy (accessToken st) = true ->
  refreshToken st = Some token ->
  token <> "" ->
  r1 Api.AuthGetCurrentUser = Api.Err e1 ->
  unauthorized e1 = true ->
  r2 (Api.AuthRefresh token) = Api.Ok fresh ->
  r3 Api.AuthGetCurrentUser = Api.Err e3 ->
  let w := run [Invoke CallFetchCurrentUser;
                Respond 0 r1; Respond 0 r2; Respond 0 r3]
               (init_world st) in
  store w = {| user := user st;
               accessToken := Some (Api.new_access_token fresh);
               refreshToken := refreshToken st;
               isAuthenticated := isAuthenticated st;
               isLoading := false; error := error st;
               settings := settings st;
               effectiveConfig := effectiveConfig st |} /\
  requests (trace w) =
    [Api.AuthGetCurrentUser; Api.AuthRefresh token; Api.AuthGetCurrentUser] /\
  count is_clearSession (trace w) = 0 /\
  outcome_of 0 (trace w) = Some (Returned VVoid) /\
  pool w = [].
Proof.
  intros Ha Ht Hne H1 Hu H2 H3.
  apply truthy_some in Ha as (c & s & Ha).
  open_state st. nonempty token.
  unroll. rewrite H1. cbn. rewrite Hu. cbn. rewrite H2. cbn.
  rewrite H3. cbn. repeat split.
Qed.

Lemma second_unauthorized_keeps_session_witness :
  let w := run [Invoke CallFetchCurrentUser;
                Respond 0 (Sample.rejected (Sample.http 401));
                Respond 0 (Sample.accepted "a2");
                Respond 0 (Sample.rejected (Sample.http 401))]
               (init_world Sample.signed_in) in
  store w = {| user := Some Sample.ann; accessToken := Some "a2";
               refreshToken := Some "r1"; isAuthenticated := true;
               isLoading := false; error := None; settings := None;
               effectiveConfig := None |} /\
  outcome_of 0 (trace w) = Some (Returned VVoid).
Proof.
  destruct (@second_unauthorized_keeps_session Sample.signed_in
              (Sample.rejected (Sample.http 401)) (Sample.accepted "a2")
              (Sample.rejected (Sample.http 401)) "r1"
              (Sample.http 401) (Sample.http 401)
              {| Api.new_access_token := "a2";
                 Api.new_token_type := "bearer" |}
              eq_refl eq_refl ltac:(discriminate) eq_refl eq_refl eq_refl
              eq_refl)
    as (Hs & _ & _ & Ho & _).
  exact (conj Hs Ho).
Defined.

(** C6, as the claim has it, fails for [fetchSettings]: a failing fetch
    leaves the whole store as it was (the [error] field included), settles
    normally and only writes to the console. *)
Lemma failed_fetchSettings_counterexample :
  let w := run [Invoke CallFetchSettings;
                Respond 0 (Sample.rejected (Sample.http 500))]
               (init_world Sample.signed_in) in
  store w = Sample.signed_in /\
  error (store w) = None /\
  outcome_of 0 (trace w) = Some (Returned VVoid) /\
  trace w = [ EvRequest 0 (Some "a1") Api.UserGetSettings;
              EvConsoleError "Failed to fetch settings:" (Sample.http 500);
              EvSettled 0 (Returned VVoid) ].
Proof. repeat split. Qed.

(** C6, amended.  A failing [fetchSettings], [updateSettings] or
    [resetSetting] leaves [settings] and [effectiveConfig] as they were.
    [updateSettings] and [resetSetting] put the message into [error] and
    reject with it; [fetchSettings] writes nothing, logs to the console and
    settles normally. *)
Theorem failed_settings_call_keeps_settings
  (st : AuthState) (r1 r2 r3 : Reply) (e1 e2 e3 : Api.Error)
  (data : Api.UpdateSettingsRequest) (key : string) :
  r1 Api.UserGetSettings = Api.Err e1 ->
  r2 (Api.UserUpdateSettings data) = Api.Err e2 ->
  r3 (Api.UserResetSetting key) = Api.Err e3 ->
  (let w := run [Invoke CallFetchSettings; Respond 0 r1] (init_world st) in
   store w = st /\
   trace w = [ EvRequest 0 (currentAccessToken st) Api.UserGetSettings;
               EvConsoleError "Failed to fetch settings:" e1;
               EvSettled 0 (Returned VVoid) ] /\
   pool w = []) /\
  (let w := run [Invoke (CallUpdateSettings data); Respond 0 r2]
                (init_world st) in
   let message := error_message e2 "Failed to update settings" in
   settings (store w) = settings st /\
   effectiveConfig (store w) = effectiveConfig st /\
   error (store w) = Some message /\
   outcome_of 0 (trace w) = Some (Threw message) /\
   pool w = []) /\
  (let w := run [Invoke (CallResetSetting key); Respond 0 r3]
                (init_world st) in
   let message := error_message e3 "Failed to reset setting" in
   settings (store w) = settings st /\
   effectiveConfig (store w) = effectiveConfig st /\
   error (store w) = Some message /\
   outcome_of 0 (trace w) = Some (Threw message) /\
   pool w = []).
Proof.
  intros H1 H2 H3. open_state st. repeat split; unroll;
    rewrite ?H1, ?H2, ?H3; reflexivity.
Qed.

Lemma failed_settings_call_keeps_settings_witness :
  let w := run [Invoke (CallResetSetting "google_api_key");
                Respond 0 (Sample.rejected (Sample.http 500))]
               (init_world Sample.signed_in) in
  settings (store w) = None /\
  effectiveConfig (store w) = None /\
  error (store w) = Some "Failed to reset setting" /\
  outcome_of 0 (trace w) = Some (Threw "Failed to reset setting").
Proof.
  destruct (@failed_settings_call_keeps_settings Sample.signed_in
              (Sample.rejected (Sample.http 500))
              (Sample.rejected (Sample.http 500))
              (Sample.rejected (Sample.http 500))
              (Sample.http 500) (Sample.http 500) (Sample.http 500)
              {| Api.new_google_api_key := None;
                 Api.new_google_api_base := None;
                 Api.new_mineru_token := None;
                 Api.new_mineru_api_base := None;
                 Api.new_image_caption_model := None;
                 Api.new_max_description_workers := None;
                 Api.new_max_image_workers := None |}
              "google_api_key" eq_refl eq_refl eq_refl)
    as (_ & _ & Hs & He & Hm & Ho & _).
  exact (conj Hs (conj He (conj Hm Ho))).
Defined.

(* ------------------------------------------------------------------ *)
(** ** Lists, traces and the pool *)

Lemma requests_app (t1 t2 : list Event) :
  requests (t1 ++ t2) = requests t1 ++ requests t2.
Proof.
  induction t1 as [|[] t1 IH]; cbn; congruence.
Qed.

Lemma count_app (A : Type) (f : A -> bool) (l1 l2 : list A) :
  count f (l1 ++ l2) = count f l1 + count f l2.
Proof.
  unfold count. now rewrite filter_app, length_app.
Qed.

Lemma run_cons (s : Step) (schedule : list Step) (w : World) :
  run (s :: schedule) w = run schedule (step w s).
Proof. reflexivity. Qed.

Lemma run_app (s1 s2 : list Step) (w : World) :
  run (s1 ++ s2) w = run s2 (run s1 w).
Proof. unfold run. apply fold_left_app. Qed.

Lemma take_nth_Forall (A : Type) (P : A -> Prop) (l : list A) :
  forall i x rest,
    take_nth i l = Some (x, rest) -> Forall P l -> P x /\ Forall P rest.
Proof.
  induction l as [|y l IH]; intros [|i] x rest H HF; cbn in H;
    try discriminate.
  - inversion H; subst. inversion HF; subst. now split.
  - destruct (take_nth i l) as [[z r]|] eqn:E; try discriminate.
    inversion H; subst. inversion HF; subst.
    destruct (IH _ _ _ E) as [Hx Hr]; auto.
Qed.

(** Taking the [i]-th element out of [pre ++ t :: post]: it is [t], or it
    comes from one of the two sides. *)
Lemma take_nth_split (A : Type) (pre : list A) (t : A) (post : list A) :
  forall i x rest,
    take_nth i (pre ++ t :: post) = Some (x, rest) ->
    (x = t /\ rest = pre ++ post) \/
    (exists pre', In x pre /\ rest = pre' ++ t :: post /\
                  forall P, Forall P pre -> Forall P pre') \/
    (exists post', In x post /\ rest = pre ++ t :: post' /\
                   forall P, Forall P post -> Forall P post').
Proof.
  induction pre as [|y pre IH]; intros i x rest H; cbn in H.
  - destruct i as [|i]; cbn in H.
    + inversion H; subst. now left.
    + destruct (take_nth i post) as [[z r]|] eqn:E; try discriminate.
      inversion H; subst. right. right. exists r.
      assert (HF : forall P, Forall P post -> P x /\ Forall P r).
      { intros P HP. eapply take_nth_Forall; eassumption. }
      split; [|split]; auto.
      * destruct (HF (fun a => In a post)) as [Hin _]; auto.
        apply Forall_forall. auto.
      * intros P HP. now apply HF.
  - destruct i as [|i]; cbn in H.
    + inversion H; subst. right. left. exists pre. cbn.
      split; [auto|split]; auto. intros P HP. now inversion HP.
    + destruct (take_nth i (pre ++ t :: post)) as [[z r]|] eqn:E;
        try discriminate.
      inversion H; subst.
      destruct (IH _ _ _ E) as [[-> ->]|[(pre' & Hin & -> & HP)|
                                        (post' & Hin & -> & HP)]].
      * now left.
      * right. left. exists (y :: pre'). cbn. split; [auto|split]; auto.
        intros P HF. inversion HF; subst. constructor; auto.
      * right. right. exists post'. split; [auto|split]; auto.
Qed.

(* ------------------------------------------------------------------ *)
(** ** Bodies that avoid a kind of request *)

Section Avoiding.

Variable f : Api.Request -> bool.

Lemma exec_avoids (A : Type) (p : Proc A) :
  Avoids f p ->
  forall me w,
    Forall (AvoidsTask f) (pool w) ->
    unchanged_count f w (snd (exec me p w)) /\
    Forall (AvoidsTask f) (pool (snd (exec me p w))) /\
    match fst (exec me p w) with
    | Suspended r k => forall x, Avoids f (k x)
    | Done _ => True
    end.
Proof.
  unfold unchanged_count.
  induction 1 as [A a|A m|A k Hk IH|A partial k Hk IH|A l e k Hk IH
                 |A child k Hc IHc Hk IHk|A r k Hr Hk IH];
    intros me w Hpool; cbn.
  - auto.
  - auto.
  - now apply IH.
  - destruct (IH me (log (EvSet partial)
                       (with_store (apply_patch partial (store w)) w)))
      as (Hn & Hp & Hs); [exact Hpool|].
    cbn in Hn. rewrite requests_app, count_app in Hn. cbn in Hn.
    rewrite Nat.add_0_r in Hn. auto.
  - destruct (IH me (log (EvConsoleError l e) w)) as (Hn & Hp & Hs);
      [exact Hpool|].
    cbn in Hn. rewrite requests_app, count_app in Hn. cbn in Hn.
    rewrite Nat.add_0_r in Hn. auto.
  - destruct (IHc (next_caller w) (bump w) Hpool) as (Hn & Hp & Hs).
    destruct (exec (next_caller w) child (bump w)) as [s w1].
    cbn in Hn, Hp, Hs.
    assert (Hw : count f (requests (trace (settle (next_caller w) void s w1)))
                 = count f (requests (trace w)) /\
                 Forall (AvoidsTask f)
                   (pool (settle (next_caller w) void s w1))).
    { destruct s as [o|r k']; cbn.
      - rewrite requests_app, count_app. cbn. rewrite Nat.add_0_r. auto.
      - split; [exact Hn|]. apply Forall_app. split; [exact Hp|].
        constructor; [exact Hs|constructor]. }
    destruct Hw as [Hn' Hp'].
    destruct (IHk me (settle (next_caller w) void s w1) Hp')
      as (Hn2 & Hp2 & Hs2).
    rewrite Hn2. auto.
  - rewrite requests_app, count_app. cbn. unfold count at 2. cbn.
    rewrite Hr. cbn. rewrite Nat.add_0_r. auto.
Qed.

Lemma settle_avoids (A : Type) (show : A -> Val) me (s : Status A) w :
  Forall (AvoidsTask f) (pool w) ->
  match s with
  | Suspended r k => forall x, Avoids f (k x)
  | Done _ => True
  end ->
  unchanged_count f w (settle me show s w) /\
  Forall (AvoidsTask f) (pool (settle me show s w)).
Proof.
  unfold unchanged_count. intros Hp Hs. destruct s as [o|r k]; cbn.
  - rewrite requests_app, count_app. cbn. rewrite Nat.add_0_r. auto.
  - split; [reflexivity|]. apply Forall_app. split; [exact Hp|].
    constructor; [exact Hs|constructor].
Qed.

Lemma start_avoids (A : Type) (show : A -> Val) (p : Proc A) w :
  Avoids f p ->
  Forall (AvoidsTask f) (pool w) ->
  unchanged_count f w (start show p w) /\
  Forall (AvoidsTask f) (pool (start show p w)).
Proof.
  unfold unchanged_count. intros Hp Hpool. unfold start.
  destruct (exec_avoids Hp (next_caller w) (bump w) Hpool) as (Hn & Hq & Hs).
  destruct (exec (next_caller w) p (bump w)) as [s w1]. cbn in Hn, Hq, Hs.
  destruct (settle_avoids show (next_caller w) s w1 Hq Hs) as [Hn' Hq'].
  unfold unchanged_count in Hn'. rewrite Hn', Hn. auto.
Qed.

Lemma respond_avoids i reply w :
  Forall (AvoidsTask f) (pool w) ->
  unchanged_count f w (respond i reply w) /\
  Forall (AvoidsTask f) (pool (respond i reply w)).
Proof.
  unfold unchanged_count. intros Hpool. unfold respond.
  destruct (take_nth i (pool w)) as [[t rest]|] eqn:E; [|auto].
  destruct (take_nth_Forall _ E Hpool) as [Ht Hrest].
  destruct (exec_avoids (Ht (reply (request t))) (caller t)
              (with_pool rest w) Hrest) as (Hn & Hq & Hs).
  destruct (exec (caller t) (resume t (reply (request t)))
              (with_pool rest w)) as [s w1]. cbn in Hn, Hq, Hs.
  destruct (settle_avoids (show t) (caller t) s w1 Hq Hs) as [Hn' Hq'].
  unfold unchanged_count in Hn'. rewrite Hn', Hn. auto.
Qed.

Lemma responses_avoid (schedule : list Step) :
  forallb is_respond schedule = true ->
  forall w,
    Forall (AvoidsTask f) (pool w) ->
    unchanged_count f w (run schedule w).
Proof.
  unfold unchanged_count.
  induction schedule as [|[c|i reply] rest IH]; cbn; intros H w Hpool.
  - reflexivity.
  - discriminate.
  - destruct (respond_avoids i reply w Hpool) as [Hn Hq].
    unfold run in IH. rewrite (IH H _ Hq). exact Hn.
Qed.

End Avoiding.

(* ------------------------------------------------------------------ *)
(** ** Start-up and the settings page *)

Lemma fetchCurrentUser_avoids_settings :
  Avoids is_get_settings fetchCurrentUser.
Proof. unfold fetchCurrentUser, fetchCurrentUser_settled. avoids. Qed.

Lemma App_restore_login_avoids_settings :
  Avoids is_get_settings App_restore_login.
Proof.
  unfold App_restore_login. cbn. constructor. intros st.
  destruct (isAuthenticated st); cbn.
  - apply Avoids_Fork.
    + apply fetchCurrentUser_avoids_settings.
    + apply Avoids_Ret.
  - apply Avoids_Ret.
Qed.

(** C8, as the claim has it, fails: started on a persisted, signed-in
    session, the effect of [App] confirms the user and then everything has
    run to its end without a settings request. *)
Lemma bootstrap_counterexample :
  let w := run [Invoke MountApp; Respond 0 (Sample.accepted "a1")]
               (init_world Sample.signed_in) in
  isAuthenticated (store w) = true /\
  user (store w) = Some Sample.ann /\
  pool w = [] /\
  requests (trace w) = [Api.AuthGetCurrentUser] /\
  count is_get_settings (requests (trace w)) = 0.
Proof. repeat split. Qed.

(** C8, amended.  The effect of [App] calls [fetchCurrentUser] when the
    persisted flag is set and does nothing otherwise; whatever the
    responses, it never leads to a settings request.  The settings are
    requested by the effect of the settings page, exactly when
    [isAuthenticated] is true. *)
Theorem bootstrap_never_fetches_settings
  (st : AuthState) (responses : list Step) :
  forallb is_respond responses = true ->
  (let w := run (Invoke MountApp :: responses) (init_world st) in
   count is_get_settings (requests (trace w)) = 0) /\
  requests (trace (invoke MountApp (init_world st))) =
    (if isAuthenticated st && truthy (accessToken st)
     then [Api.AuthGetCurrentUser] else []) /\
  requests (trace (invoke MountSettings (init_world st))) =
    (if isAuthenticated st then [Api.UserGetSettings] else []).
Proof.
  intros Hr. split; [|split].
  - cbn zeta. rewrite run_cons. cbn [step invoke body].
    destruct (@start_avoids is_get_settings unit void App_restore_login
                (init_world st) App_restore_login_avoids_settings)
      as [Hn Hp]; [constructor|].
    pose proof (@responses_avoid is_get_settings responses Hr _ Hp) as Hq.
    unfold unchanged_count in Hn, Hq. rewrite Hq. exact Hn.
  - open_state st. unroll. destruct auth; cbn; [|reflexivity].
    destruct acc as [[|? ?]|]; reflexivity.
  - open_state st. unroll. destruct auth; reflexivity.
Qed.

Lemma bootstrap_never_fetches_settings_witness :
  count is_get_settings
    (requests (trace (run [Invoke MountApp;
                           Respond 0 (Sample.rejected (Sample.http 401));
                           Respond 0 (Sample.accepted "a2");
                           Respond 0 (Sample.accepted "a2")]
                          (init_world Sample.signed_in)))) = 0.
Proof.
  exact (proj1 (@bootstrap_never_fetches_settings Sample.signed_in
                  [Respond 0 (Sample.rejected (Sample.http 401));
                   Respond 0 (Sample.accepted "a2");
                   Respond 0 (Sample.accepted "a2")] eq_refl)).
Defined.

(* ------------------------------------------------------------------ *)
(** ** Concurrent callers and the refresh exchange *)

Lemma count_repeat (A : Type) (f : A -> bool) (x : A) (n : nat) :
  count f (repeat x n) = if f x then n else 0.
Proof.
  unfold count. induction n as [|n IH]; cbn.
  - now destruct (f x).
  - destruct (f x) eqn:E; cbn; rewrite ?IH; reflexivity.
Qed.

(** One more [fetchCurrentUser] joins the pool. *)
Lemma invoke_fetchCurrentUser (w : World) :
  truthy (accessToken (store w)) = true ->
  let w' := invoke CallFetchCurrentUser w in
  pool w' = pool w ++ [awaiting_user (next_caller w)] /\
  next_caller w' = S (next_caller w) /\
  accessToken (store w') = accessToken (store w) /\
  refreshToken (store w') = refreshToken (store w) /\
  requests (trace w') = requests (trace w) ++ [Api.AuthGetCurrentUser].
Proof.
  intros Ha. unroll. rewrite Ha. cbn. repeat split.
  now rewrite !requests_app, <- app_assoc.
Qed.

Lemma invoke_fetchCurrentUser_many (n : nat) :
  forall w,
    truthy (accessToken (store w)) = true ->
    let w' := run (repeat (Invoke CallFetchCurrentUser) n) w in
    pool w' = pool w ++ map awaiting_user (seq (next_caller w) n) /\
    refreshToken (store w') = refreshToken (store w) /\
    requests (trace w') =
      requests (trace w) ++ repeat Api.AuthGetCurrentUser n.
Proof.
  induction n as [|n IH]; intros w Ha; cbn [repeat].
  - cbn. now rewrite !app_nil_r.
  - rewrite run_cons. cbn [step].
    destruct (invoke_fetchCurrentUser w Ha) as (Hp & Hn & Hacc & Hr & Hq).
    destruct (IH (invoke CallFetchCurrentUser w)) as (Hp' & Hr' & Hq').
    { now rewrite Hacc. }
    cbn zeta. rewrite Hp', Hr', Hq', Hp, Hn, Hr, Hq. cbn [seq map repeat].
    now rewrite <- !app_assoc.
Qed.

(** The oldest waiting [fetchCurrentUser] is told "unauthorized": it sends
    a refresh request of its own, whatever else is in flight. *)
Lemma respond_unauthorized (w : World) (me : nat) (rest : list Task)
  (reply : Reply) (token : string) :
  pool w = awaiting_user me :: rest ->
  says_unauthorized reply ->
  refreshToken (store w) = Some token ->
  token <> "" ->
  let w' := respond 0 reply w in
  exists t,
    pool w' = rest ++ [t] /\
    request t = Api.AuthRefresh token /\
    caller t = me /\
    store w' = store w /\
    requests (trace w') = requests (trace w) ++ [Api.AuthRefresh token].
Proof.
  intros Hp (e & He & Hu) Ht Hne. nonempty token.
  unfold respond. rewrite Hp. cbn. rewrite He. cbn. rewrite Hu. cbn.
  rewrite Ht. cbn. eexists. repeat split. now rewrite requests_app.
Qed.

Lemma respond_unauthorized_many (token : string) (ids : list nat) :
  forall (replies : list Reply) (others : list Task) (w : World),
    pool w = map awaiting_user ids ++ others ->
    length replies = length ids ->
    Forall says_unauthorized replies ->
    refreshToken (store w) = Some token ->
    token <> "" ->
    let w' := run (map (Respond 0) replies) w in
    exists news,
      pool w' = others ++ news /\
      map request news = repeat (Api.AuthRefresh token) (length ids) /\
      requests (trace w') =
        requests (trace w) ++ repeat (Api.AuthRefresh token) (length ids).
Proof.
  induction ids as [|me ids IH]; intros replies others w Hp Hl Hall Ht Hne.
  - destruct replies; [|discriminate]. cbn in *. exists [].
    now rewrite !app_nil_r.
  - destruct replies as [|reply replies]; [discriminate|].
    inversion Hall as [|? ? H1 Hrest]; subst.
    cbn [map]. rewrite run_cons. cbn [step].
    destruct (@respond_unauthorized w me (map awaiting_user ids ++ others)
                reply token Hp H1 Ht Hne) as (t & Hp' & Hreq & _ & Hs & Hq).
    destruct (IH replies (others ++ [t]) (respond 0 reply w))
      as (news & Hp2 & Hm & Hq2).
    + now rewrite Hp', app_assoc.
    + cbn in Hl. congruence.
    + exact Hrest.
    + now rewrite Hs.
    + exact Hne.
    + exists (t :: news). cbn zeta. rewrite Hp2, Hq2, Hq. cbn.
      rewrite Hm, Hreq. split; [|split].
      * now rewrite <- app_assoc.
      * reflexivity.
      * now rewrite <- app_assoc.
Qed.

(** C3, as the claim has it, fails: two [fetchCurrentUser] calls are told
    "unauthorized" one after the other, and two refresh requests are in
    flight together.  And of two concurrent [refreshAccessToken] calls,
    each gets the answer to its own request: here [true] for one and
    [false] for the other. *)
Lemma shared_refresh_counterexample :
  (let w := run [Invoke CallFetchCurrentUser; Invoke CallFetchCurrentUser;
                 Respond 0 (Sample.rejected (Sample.http 401));
                 Respond 0 (Sample.rejected (Sample.http 401))]
                (init_world Sample.signed_in) in
   in_flight w = [Api.AuthRefresh "r1"; Api.AuthRefresh "r1"] /\
   count is_refresh (in_flight w) = 2 /\
   count is_refresh (requests (trace w)) = 2) /\
  (let w := run [Invoke CallRefreshAccessToken; Invoke CallRefreshAccessToken;
                 Respond 0 (Sample.accepted "a2");
                 Respond 0 (Sample.rejected (Sample.http 401))]
                (init_world Sample.signed_in) in
   count is_refresh (requests (trace w)) = 2 /\
   outcome_of 0 (trace w) = Some (Returned (VBool true)) /\
   outcome_of 1 (trace w) = Some (Returned (VBool false))).
Proof. repeat split. Qed.

(** C3, amended.  Every caller that is told "unauthorized" while a refresh
    token is held sends its own refresh request: [n] concurrent
    [fetchCurrentUser] calls lead to [n] refresh requests, all [n] in
    flight together. *)
Theorem each_caller_refreshes_on_its_own
  (n : nat) (st : AuthState) (replies : list Reply) (token : string) :
  truthy (accessToken st) = true ->
  refreshToken st = Some token ->
  token <> "" ->
  length replies = n ->
  Forall says_unauthorized replies ->
  let w := run (repeat (Invoke CallFetchCurrentUser) n
                ++ map (Respond 0) replies) (init_world st) in
  in_flight w = repeat (Api.AuthRefresh token) n /\
  count is_refresh (in_flight w) = n /\
  count is_refresh (requests (trace w)) = n.
Proof.
  intros Ha Ht Hne Hl Hall. cbn zeta. rewrite run_app.
  destruct (@invoke_fetchCurrentUser_many n (init_world st) Ha)
    as (Hp & Hr & Hq).
  cbn in Hp, Hr, Hq.
  destruct (@respond_unauthorized_many token (seq 0 n) replies []
              (run (repeat (Invoke CallFetchCurrentUser) n) (init_world st)))
    as (news & Hp' & Hm & Hq').
  - now rewrite Hp, app_nil_r.
  - now rewrite length_seq.
  - exact Hall.
  - now rewrite Hr.
  - exact Hne.
  - rewrite length_seq in Hm, Hq'. cbn in Hp'.
    unfold in_flight. rewrite Hp', Hm, Hq', Hq.
    rewrite count_app, !count_repeat. cbn. auto.
Qed.

Lemma each_caller_refreshes_on_its_own_witness :
  let w := run (repeat (Invoke CallFetchCurrentUser) 3
                ++ map (Respond 0)
                     (repeat (Sample.rejected (Sample.http 401)) 3))
               (init_world Sample.signed_in) in
  in_flight w = repeat (Api.AuthRefresh "r1") 3 /\
  count is_refresh (in_flight w) = 3 /\
  count is_refresh (requests (trace w)) = 3.
Proof.
  apply (@each_caller_refreshes_on_its_own 3 Sample.signed_in
           (repeat (Sample.rejected (Sample.http 401)) 3) "r1").
  - reflexivity.
  - reflexivity.
  - discriminate.
  - reflexivity.
  - repeat constructor; exists (Sample.http 401); split; reflexivity.
Defined.

(* ------------------------------------------------------------------ *)
(** ** The session invariant along sequential schedules *)

Lemma coherent_flag (st : AuthState) :
  coherent st = true -> isAuthenticated st = both_present st.
Proof.
  unfold coherent, both_present.
  destruct (accessToken st), (refreshToken st), (isAuthenticated st);
    cbn; congruence.
Qed.

Lemma same_session_refl (st : AuthState) : same_session st st.
Proof. now repeat split. Qed.

Lemma same_session_trans (st1 st2 st3 : AuthState) :
  same_session st1 st2 -> same_session st2 st3 -> same_session st1 st3.
Proof.
  intros (A1 & R1 & F1) (A2 & R2 & F2). repeat split; congruence.
Qed.

Lemma holds_same_session (ph : Phase) (st st' : AuthState) :
  same_session st st' -> holds ph st -> holds ph st'.
Proof.
  intros (Ha & Hr & Hf) [Hc Hp]. unfold holds, coherent in *.
  rewrite Ha, Hr, Hf. split; [exact Hc|]. destruct ph; auto.
Qed.

Lemma apply_patch_neutral (partial : Patch) :
  neutral_patch partial = true ->
  forall st, same_session st (apply_patch partial st).
Proof.
  unfold apply_patch, neutral_patch.
  induction partial as [|a partial IH]; cbn; intros H st.
  - apply same_session_refl.
  - apply andb_true_iff in H as [Ha Hp].
    apply same_session_trans with (assign st a); [|now apply IH].
    destruct a; try discriminate; now repeat split.
Qed.

Lemma holds_refine (ph : Phase) (st : AuthState) :
  holds ph st -> holds (refine ph st) st.
Proof.
  intros [Hc Hp]. unfold refine.
  destruct (isAuthenticated st) eqn:E.
  - split; [exact Hc|exact E].
  - split; [exact Hc|]. now rewrite E.
Qed.

Lemma extends_refl (w : World) : extends_neutrally w w.
Proof.
  split; [apply same_session_refl|]. exists []. now rewrite app_nil_r.
Qed.

Lemma extends_trans (w1 w2 w3 : World) :
  extends_neutrally w1 w2 -> extends_neutrally w2 w3 ->
  extends_neutrally w1 w3.
Proof.
  intros [S1 (x1 & P1 & F1)] [S2 (x2 & P2 & F2)]. split.
  - eapply same_session_trans; eassumption.
  - exists (x1 ++ x2). rewrite P2, P1, app_assoc. split; [reflexivity|].
    apply Forall_app. now split.
Qed.

Lemma extends_log (ev : Event) (w : World) : extends_neutrally w (log ev w).
Proof.
  split; [apply same_session_refl|]. exists []. cbn. now rewrite app_nil_r.
Qed.

Lemma settle_neutral (A : Type) (show : A -> Val) me (s : Status A) w :
  match s with
  | Suspended r k => forall x, Neutral (k x)
  | Done _ => True
  end ->
  extends_neutrally w (settle me show s w).
Proof.
  intros Hs. destruct s as [o|r k]; cbn.
  - apply extends_log.
  - split; [apply same_session_refl|]. cbn. eexists. split; [reflexivity|].
    constructor; [exact Hs|constructor].
Qed.

Lemma exec_neutral (A : Type) (p : Proc A) :
  Neutral p ->
  forall me w,
    extends_neutrally w (snd (exec me p w)) /\
    match fst (exec me p w) with
    | Suspended r k => forall x, Neutral (k x)
    | Done _ => True
    end.
Proof.
  induction 1 as [A a|A m|A k Hk IH|A partial k Hp Hk IH|A l e k Hk IH
                 |A child k Hc IHc Hk IHk|A r k Hk IH];
    intros me w; cbn.
  - split; [apply extends_refl|exact I].
  - split; [apply extends_refl|exact I].
  - apply IH.
  - destruct (IH me (log (EvSet partial)
                       (with_store (apply_patch partial (store w)) w)))
      as [He Hs].
    split; [|exact Hs]. eapply extends_trans; [|exact He].
    split; [now apply apply_patch_neutral|]. exists []. cbn.
    now rewrite app_nil_r.
  - destruct (IH me (log (EvConsoleError l e) w)) as [He Hs].
    split; [|exact Hs]. eapply extends_trans; [|exact He].
    apply extends_log.
  - destruct (IHc (next_caller w) (bump w)) as [He Hs].
    destruct (exec (next_caller w) child (bump w)) as [s w1].
    cbn in He, Hs.
    destruct (IHk me (settle (next_caller w) void s w1)) as [He2 Hs2].
    split; [|exact Hs2].
    eapply extends_trans; [|exact He2].
    eapply extends_trans; [|now apply settle_neutral].
    exact He.
  - split; [apply extends_log|]. exact Hk.
Qed.

Lemma exec_safe (A : Type) (ph : Phase) (p : Proc A) :
  Safe ph p ->
  forall me w,
    holds ph (store w) ->
    Forall NeutralTask (pool w) ->
    after_stretch (fst (exec me p w)) (snd (exec me p w)).
Proof.
  induction 1 as [A ph a|A ph m|A ph k Hk IH|A ph ph' partial k Hp Hk IH
                 |A ph l e k Hk IH|A ph child k Hc Hk IH
                 |A ph child a Hc IH|A ph r k Hk IH];
    intros me w Hh Hpool; cbn.
  - apply PoolOk_quiet; [apply Hh|exact Hpool].
  - apply PoolOk_quiet; [apply Hh|exact Hpool].
  - apply IH; [exact Hh|now apply holds_refine|exact Hpool].
  - apply IH; [now apply Hp|exact Hpool].
  - apply IH; [exact Hh|exact Hpool].
  - destruct (exec_neutral Hc (next_caller w) (bump w))
      as [[Hs (x & Hx & Fx)] Hk'].
    destruct (exec (next_caller w) child (bump w)) as [s w1].
    cbn in Hs, Hx, Fx, Hk'.
    destruct (settle_neutral void (next_caller w) s w1 Hk')
      as [Hs2 (x2 & Hx2 & Fx2)].
    apply IH.
    + eapply holds_same_session; [|exact Hh].
      eapply same_session_trans; eassumption.
    + rewrite Hx2, Hx. repeat (apply Forall_app; split); assumption.
  - specialize (IH (next_caller w) (bump w) Hh Hpool).
    destruct (exec (next_caller w) child (bump w)) as [s w1].
    cbn in IH. destruct s as [o|r k]; cbn.
    + exact IH.
    + destruct IH as (ph' & Hh' & Hk' & Hp').
      unfold WorldOk. cbn.
      apply PoolOk_busy with (ph := ph') (post := []); auto.
  - exists ph. cbn. auto.
Qed.

Lemma settle_safe (A : Type) (show : A -> Val) me (s : Status A) w :
  after_stretch s w -> WorldOk (settle me show s w).
Proof.
  destruct s as [o|r k]; cbn.
  - auto.
  - intros (ph & Hh & Hk & Hp). unfold WorldOk. cbn.
    apply PoolOk_busy with (ph := ph) (post := []); auto.
Qed.

Lemma WorldOk_coherent (w : World) : WorldOk w -> coherent (store w) = true.
Proof.
  unfold WorldOk. intros [pool Hc _|ph pre t post [Hc _] _ _ _]; exact Hc.
Qed.

Lemma respond_ok (i : nat) (reply : Reply) (w : World) :
  WorldOk w -> WorldOk (respond i reply w).
Proof.
  unfold WorldOk at 1. intros Hw. unfold respond.
  destruct (take_nth i (pool w)) as [[t rest]|] eqn:E; [|exact Hw].
  remember (pool w) as tasks eqn:Htasks.
  destruct Hw as [tasks Hc Hn|ph pre t0 post Hh Ht Hpre Hpost].
  - (* every pending task is neutral *)
    destruct (take_nth_Forall _ E Hn) as [Ht Hrest].
    destruct (exec_neutral (Ht (reply (request t))) (caller t)
                (with_pool rest w)) as [[Hs (x & Hx & Fx)] Hk].
    destruct (exec (caller t) (resume t (reply (request t)))
                (with_pool rest w)) as [s w1].
    cbn in Hs, Hx, Fx, Hk.
    destruct (settle_neutral (show t) (caller t) s w1 Hk)
      as [Hs2 (x2 & Hx2 & Fx2)].
    unfold WorldOk. apply PoolOk_quiet.
    + assert (Hh : holds AnyPhase (store w)) by (split; auto).
      eapply holds_same_session in Hh;
        [apply Hh|eapply same_session_trans; eassumption].
    + rewrite Hx2, Hx. repeat (apply Forall_app; split); assumption.
  - destruct (take_nth_split _ _ _ _ E)
      as [[-> ->]|[(pre' & Hin & -> & HP)|(post' & Hin & -> & HP)]].
    + (* the one task that may write the session *)
      pose proof (@exec_safe _ ph _ (Ht (reply (request t0))) (caller t0)
                    (with_pool (pre ++ post) w) Hh) as Hs.
      cbn in Hs. specialize (Hs ltac:(apply Forall_app; now split)).
      destruct (exec (caller t0) (resume t0 (reply (request t0)))
                  (with_pool (pre ++ post) w)) as [s w1].
      now apply settle_safe.
    + (* a neutral task queued before it *)
      assert (Hx0 : NeutralTask t)
        by (eapply Forall_forall in Hpre; eassumption).
      destruct (exec_neutral (Hx0 (reply (request t))) (caller t)
                  (with_pool (pre' ++ t0 :: post) w))
        as [[Hs (x & Hx & Fx)] Hk].
      destruct (exec (caller t) (resume t (reply (request t)))
                  (with_pool (pre' ++ t0 :: post) w)) as [s w1].
      cbn in Hs, Hx, Fx, Hk.
      destruct (settle_neutral (show t) (caller t) s w1 Hk)
        as [Hs2 (x2 & Hx2 & Fx2)].
      unfold WorldOk. rewrite Hx2, Hx, <- !app_assoc. cbn.
      apply PoolOk_busy with (ph := ph); auto.
      * eapply holds_same_session; [|exact Hh].
        eapply same_session_trans; eassumption.
      * repeat (apply Forall_app; split); assumption.
    + (* a neutral task queued after it *)
      assert (Hx0 : NeutralTask t)
        by (eapply Forall_forall in Hpost; eassumption).
      destruct (exec_neutral (Hx0 (reply (request t))) (caller t)
                  (with_pool (pre ++ t0 :: post') w))
        as [[Hs (x & Hx & Fx)] Hk].
      destruct (exec (caller t) (resume t (reply (request t)))
                  (with_pool (pre ++ t0 :: post') w)) as [s w1].
      cbn in Hs, Hx, Fx, Hk.
      destruct (settle_neutral (show t) (caller t) s w1 Hk)
        as [Hs2 (x2 & Hx2 & Fx2)].
      unfold WorldOk. rewrite Hx2, Hx, <- !app_assoc. cbn.
      apply PoolOk_busy with (ph := ph); auto.
      * eapply holds_same_session; [|exact Hh].
        eapply same_session_trans; eassumption.
      * repeat (apply Forall_app; split); auto.
Qed.

(** *** Every entry point is safe *)

Lemma fetchSettings_neutral : Neutral fetchSettings.
Proof. unfold fetchSettings. neutral. Qed.

Lemma body_safe (c : Call) :
  match body c with
  | inl p => Safe AnyPhase p
  | inr p => Safe AnyPhase p
  end.
Proof.
  destruct c; cbn [body].
  - unfold login. safe.
  - unfold register. safe.
  - unfold logout. safe.
  - unfold refreshAccessToken. safe.
  - unfold fetchCurrentUser, fetchCurrentUser_settled. safe.
  - unfold setTokensFromOAuth, fetchCurrentUser, fetchCurrentUser_settled.
    safe.
  - unfold fetchSettings. safe.
  - unfold updateSettings. safe.
  - unfold resetSetting. safe.
  - unfold clearError. safe.
  - unfold setError. safe.
  - unfold App_restore_login, fetchCurrentUser, fetchCurrentUser_settled.
    safe.
  - unfold Settings_load_settings. safe.
Qed.

(** *** What stays in flight between actions *)

Lemma neutral_tame (A : Type) (p : Proc A) : Neutral p -> Tame p.
Proof.
  induction 1 as [A a|A m|A k Hk IH|A partial k Hp Hk IH|A l e k Hk IH
                 |A child k Hc IHc Hk IHk|A r k Hk IH].
  - apply Tame_Ret.
  - apply Tame_Throw.
  - now apply Tame_Get.
  - now apply Tame_Set.
  - now apply Tame_ConsoleError.
  - now apply Tame_Fork.
  - destruct (is_settings_request r) eqn:E.
    + now apply Tame_Await_settings.
    + now apply Tame_Await.
Qed.

Lemma tame_wait_resume (A : Type) (r : Api.Request)
  (k : Api.Result (Api.resp_type r) -> Proc A) :
  tame_wait k -> forall x, Tame (k x).
Proof.
  unfold tame_wait. destruct (is_settings_request r); intros H x.
  - apply neutral_tame, H.
  - apply H.
Qed.

Lemma settle_tame (A : Type) (show : A -> Val) me (s : Status A) w :
  tame_status s -> Forall TameTask (pool w) ->
  Forall TameTask (pool (settle me show s w)).
Proof.
  destruct s as [o|r k]; cbn; intros Hs Hp.
  - exact Hp.
  - apply Forall_app. split; [exact Hp|]. constructor; [exact Hs|constructor].
Qed.

Lemma exec_tame (A : Type) (p : Proc A) :
  Tame p ->
  forall me w,
    Forall TameTask (pool w) ->
    Forall TameTask (pool (snd (exec me p w))) /\
    tame_status (fst (exec me p w)).
Proof.
  induction 1 as [A a|A m|A k Hk IH|A partial k Hk IH|A l e k Hk IH
                 |A child k Hc IHc Hk IHk|A r k Hr Hk|A r k Hr Hk IH];
    intros me w Hp; cbn.
  - now split.
  - now split.
  - now apply IH.
  - now apply IH.
  - now apply IH.
  - destruct (IHc (next_caller w) (bump w) Hp) as [Hp1 Hs1].
    destruct (exec (next_caller w) child (bump w)) as [s w1].
    cbn in Hp1, Hs1. apply IHk. now apply settle_tame.
  - split; [exact Hp|]. unfold tame_wait. now rewrite Hr.
  - split; [exact Hp|]. unfold tame_wait. now rewrite Hr.
Qed.

Lemma start_tame (A : Type) (show : A -> Val) (p : Proc A) (w : World) :
  Tame p -> Forall TameTask (pool w) ->
  Forall TameTask (pool (start show p w)).
Proof.
  intros Ht Hp. unfold start.
  destruct (@exec_tame _ p Ht (next_caller w) (bump w) Hp) as [Hp1 Hs1].
  destruct (exec (next_caller w) p (bump w)) as [s w1].
  now apply settle_tame.
Qed.

Lemma respond_tame (i : nat) (reply : Reply) (w : World) :
  Forall TameTask (pool w) -> Forall TameTask (pool (respond i reply w)).
Proof.
  intros Hp. unfold respond.
  destruct (take_nth i (pool w)) as [[t rest]|] eqn:E; [|exact Hp].
  destruct (take_nth_Forall _ E Hp) as [Ht Hrest].
  destruct (@exec_tame _ _ (@tame_wait_resume _ _ _ Ht (reply (request t)))
              (caller t) (with_pool rest w) Hrest) as [Hp1 Hs1].
  destruct (exec (caller t) (resume t (reply (request t)))
              (with_pool rest w)) as [s w1].
  now apply settle_tame.
Qed.

Lemma body_tame (c : Call) :
  match body c with
  | inl p => Tame p
  | inr p => Tame p
  end.
Proof.
  destruct c; cbn [body].
  - unfold login, fetchSettings. tame.
  - unfold register, fetchSettings. tame.
  - unfold logout. tame.
  - unfold refreshAccessToken. tame.
  - unfold fetchCurrentUser, fetchCurrentUser_settled, refreshAccessToken.
    tame.
  - unfold setTokensFromOAuth, fetchCurrentUser, fetchCurrentUser_settled,
      refreshAccessToken, fetchSettings.
    tame.
  - unfold fetchSettings. tame.
  - unfold updateSettings. tame.
  - unfold resetSetting. tame.
  - unfold clearError. tame.
  - unfold setError. tame.
  - unfold App_restore_login, fetchCurrentUser, fetchCurrentUser_settled,
      refreshAccessToken.
    tame.
  - unfold Settings_load_settings, fetchSettings. tame.
Qed.

Lemma invoke_tame (c : Call) (w : World) :
  Forall TameTask (pool w) -> Forall TameTask (pool (invoke c w)).
Proof.
  intros Hp. pose proof (body_tame c) as Hb. unfold invoke.
  destruct (body c) as [p|p]; now apply start_tame.
Qed.

(** In an idle world every pending task leaves the session alone. *)
Lemma idle_neutral (w : World) :
  Forall TameTask (pool w) -> idle w = true -> Forall NeutralTask (pool w).
Proof.
  unfold idle, in_flight. induction (pool w) as [|t tasks IH]; cbn.
  - constructor.
  - intros Ht Hi. apply andb_true_iff in Hi as [Hr Hi].
    inversion Ht as [|t' tasks' Ht1 Ht2]; subst. constructor.
    + unfold TameTask, tame_wait in Ht1. rewrite Hr in Ht1. exact Ht1.
    + now apply IH.
Qed.

(** *** Along a sequential schedule *)

Lemma start_ok (A : Type) (show : A -> Val) (p : Proc A) (w : World) :
  Safe AnyPhase p ->
  coherent (store w) = true ->
  Forall NeutralTask (pool w) ->
  WorldOk (start show p w).
Proof.
  intros Hp Hc Hidle. unfold start.
  assert (Hs : after_stretch (fst (exec (next_caller w) p (bump w)))
                 (snd (exec (next_caller w) p (bump w)))).
  { apply exec_safe with (ph := AnyPhase); [exact Hp|now split|exact Hidle]. }
  destruct (exec (next_caller w) p (bump w)) as [s w1].
  now apply settle_safe.
Qed.

Lemma invoke_ok (c : Call) (w : World) :
  WorldOk w -> Forall TameTask (pool w) -> idle w = true ->
  WorldOk (invoke c w).
Proof.
  intros Hw Ht Hidle.
  pose proof (idle_neutral _ Ht Hidle) as Hp.
  pose proof (WorldOk_coherent Hw) as Hc.
  pose proof (body_safe c) as Hb. unfold invoke.
  destruct (body c) as [p|p]; now apply start_ok.
Qed.

Lemma run_ok (schedule : list Step) :
  forall w,
    WorldOk w -> Forall TameTask (pool w) -> sequential schedule w = true ->
    WorldOk (run schedule w).
Proof.
  induction schedule as [|[c|i reply] rest IH]; intros w Hw Ht Hs.
  - exact Hw.
  - cbn in Hs. apply andb_true_iff in Hs as [Hidle Hs].
    rewrite run_cons. apply IH; [|now apply invoke_tame|exact Hs].
    now apply invoke_ok.
  - cbn in Hs. rewrite run_cons.
    apply IH; [now apply respond_ok|now apply respond_tame|exact Hs].
Qed.

Lemma sequential_app (s1 s2 : list Step) :
  forall w, sequential (s1 ++ s2) w = true -> sequential s1 w = true.
Proof.
  induction s1 as [|[c|i reply] s1 IH]; intros w H; cbn in *.
  - reflexivity.
  - apply andb_true_iff in H as [Hidle H]. rewrite Hidle. cbn. now apply IH.
  - now apply IH.
Qed.

(** C5.  Start from the initial state, or from any persisted state in
    which the flag agrees with the tokens, and let the actions of the
    store (login, register, OAuth callback, logout, refresh, ...) happen one
    after the other, with whatever answers from the server: each action is
    started when the one before has run to its end, while the settings fetch
    that [login], [register] and the OAuth callback leave behind may still be
    in flight and be answered at any later point.  At every point of such a
    run, between actions and between their steps, [isAuthenticated] equals
    "both tokens are present". *)
Theorem authenticated_iff_both_tokens
  (st : AuthState) (before after : list Step) :
  coherent st = true ->
  sequential (before ++ after) (init_world st) = true ->
  let st' := store (run before (init_world st)) in
  isAuthenticated st' = both_present st'.
Proof.
  intros Hc Hs. cbn zeta. apply coherent_flag, WorldOk_coherent.
  apply run_ok.
  - apply PoolOk_quiet; [exact Hc|constructor].
  - constructor.
  - eapply sequential_app, Hs.
Qed.

Lemma authenticated_iff_both_tokens_witness :
  let st' := store (run [Invoke (CallLogin "ann@example.org" "secret" None);
                         Respond 0 (Sample.accepted "a1");
                         Invoke CallLogout;
                         Respond 1 (Sample.accepted "a1");
                         Invoke CallFetchCurrentUser;
                         Respond 0 (Sample.accepted "a1")]
                        (init_world initial_state)) in
  isAuthenticated st' = both_present st'.
Proof.
  apply (@authenticated_iff_both_tokens initial_state
           [Invoke (CallLogin "ann@example.org" "secret" None);
            Respond 0 (Sample.accepted "a1");
            Invoke CallLogout;
            Respond 1 (Sample.accepted "a1");
            Invoke CallFetchCurrentUser;
            Respond 0 (Sample.accepted "a1")]
           [Invoke (CallSetTokensFromOAuth "a2" "r2");
            Respond 0 (Sample.rejected (Sample.http 401));
            Respond 0 (Sample.rejected (Sample.http 401));
            Invoke CallLogout]).
  - reflexivity.
  - reflexivity.
Defined.

(** The actions have to follow one another for this: a [logout] that
    overtakes a pending [fetchCurrentUser] leaves the flag set without any
    token once the user arrives. *)
Remark overlapping_actions_break_the_invariant :
  let schedule := [Invoke CallFetchCurrentUser; Invoke CallLogout;
                   Respond 1 (Sample.accepted "a1");
                   Respond 0 (Sample.accepted "a1")] in
  let st' := store (run schedule (init_world Sample.signed_in)) in
  sequential schedule (init_world Sample.signed_in) = false /\
  isAuthenticated st' = true /\
  both_present st' = false.
Proof. repeat split. Qed.

(* ------------------------------------------------------------------ *)
(** ** More on the actions of the store *)

(** X1.  A successful [login] stores the user and both tokens of the
    response, raises the flag, and resets [isLoading]; the error of an
    earlier attempt is gone.  It settles normally and leaves exactly one
    request behind: the settings fetch, sent when the new access token is
    already in the store. *)
Theorem login_success_stores_session
  (st : AuthState) (email password : string) (rememberMe : option bool)
  (reply : Reply) (response : Api.Session) :
  let credentials :=
    {| Api.login_email := email; Api.login_password := password;
       Api.remember_me :=
         Some match rememberMe with Some b => b | None => false end |} in
  reply (Api.AuthLogin credentials) = Api.Ok response ->
  let w := run [Invoke (CallLogin email password rememberMe); Respond 0 reply]
               (init_world st) in
  store w = {| user := Some (Api.user response);
               accessToken := Some (Api.access_token response);
               refreshToken := Some (Api.refresh_token response);
               isAuthenticated := true; isLoading := false; error := None;
               settings := settings st;
               effectiveConfig := effectiveConfig st |} /\
  requests (trace w) = [Api.AuthLogin credentials; Api.UserGetSettings] /\
  In (EvRequest 1 (Some (Api.access_token response)) Api.UserGetSettings)
     (trace w) /\
  in_flight w = [Api.UserGetSettings] /\
  outcome_of 0 (trace w) = Some (Returned VVoid).
Proof.
  intros credentials Hr. open_state st. unroll.
  fold credentials. rewrite Hr. cbn. repeat split.
  do 3 right. left. reflexivity.
Qed.

Lemma login_success_stores_session_witness :
  let w := run [Invoke (CallLogin "ann@example.org" "secret" None);
                Respond 0 (Sample.accepted "a1")]
               (init_world initial_state) in
  accessToken (store w) = Some "a1" /\
  isAuthenticated (store w) = true /\
  in_flight w = [Api.UserGetSettings].
Proof.
  destruct (@login_success_stores_session initial_state "ann@example.org"
              "secret" None (Sample.accepted "a1") Sample.session eq_refl)
    as (Hs & _ & _ & Hf & _).
  exact (conj (f_equal accessToken Hs)
              (conj (f_equal isAuthenticated Hs) Hf)).
Defined.

(** X2.  A failed [login] puts the server's message, or ["Login failed"]
    when there is none, into [error], resets [isLoading] and rejects with
    that same message.  User, tokens, flag and settings stay as they were,
    and no settings fetch follows. *)
Theorem login_failure_reports_and_keeps_session
  (st : AuthState) (email password : string) (rememberMe : option bool)
  (reply : Reply) (e : Api.Error) :
  let credentials :=
    {| Api.login_email := email; Api.login_password := password;
       Api.remember_me :=
         Some match rememberMe with Some b => b | None => false end |} in
  reply (Api.AuthLogin credentials) = Api.Err e ->
  let w := run [Invoke (CallLogin email password rememberMe); Respond 0 reply]
               (init_world st) in
  let message := error_message e "Login failed" in
  store w = {| user := user st; accessToken := accessToken st;
               refreshToken := refreshToken st;
               isAuthenticated := isAuthenticated st;
               isLoading := false; error := Some message;
               settings := settings st;
               effectiveConfig := effectiveConfig st |} /\
  requests (trace w) = [Api.AuthLogin credentials] /\
  outcome_of 0 (trace w) = Some (Threw message) /\
  message <> "" /\
  pool w = [].
Proof.
  intros credentials Hr. open_state st. unroll.
  fold credentials. rewrite Hr. cbn. repeat split.
  unfold error_message. destruct (Api.response e) as [r|]; [|discriminate].
  destruct (Api.data_error r) as [[|c m]|]; cbn; discriminate.
Qed.

Lemma login_failure_reports_and_keeps_session_witness :
  let w := run [Invoke (CallLogin "ann@example.org" "wrong" None);
                Respond 0 (Fixture.refused 401 "Invalid email or password")]
               (init_world initial_state) in
  error (store w) = Some "Invalid email or password" /\
  isAuthenticated (store w) = false /\
  outcome_of 0 (trace w) = Some (Threw "Invalid email or password").
Proof.
  destruct (@login_failure_reports_and_keeps_session initial_state
              "ann@example.org" "wrong" None
              (Fixture.refused 401 "Invalid email or password")
              {| Api.response :=
                   Some {| Api.status := 401;
                           Api.data_error :=
                             Some "Invalid email or password" |} |}
              eq_refl)
    as (Hs & _ & Ho & _).
  exact (conj (f_equal error Hs) (conj (f_equal isAuthenticated Hs) Ho)).
Defined.

(** X3.  [register] sends the user name, the e-mail address and the
    password, and no verification code.  On success it does what [login]
    does with the same response; on failure it reports like [login], with
    ["Registration failed"] as the default message. *)
Theorem register_sends_no_code_and_mirrors_login
  (st : AuthState) (username email password : string) (reply : Reply) :
  let form :=
    {| Api.reg_username := username; Api.reg_email := email;
       Api.reg_password := password; Api.verification_code := None |} in
  let w := run [Invoke (CallRegister username email password);
                Respond 0 reply] (init_world st) in
  match reply (Api.AuthRegister form) with
  | Api.Ok response =>
      store w = {| user := Some (Api.user response);
                   accessToken := Some (Api.access_token response);
                   refreshToken := Some (Api.refresh_token response);
                   isAuthenticated := true; isLoading := false;
                   error := None; settings := settings st;
                   effectiveConfig := effectiveConfig st |} /\
      requests (trace w) = [Api.AuthRegister form; Api.UserGetSettings] /\
      outcome_of 0 (trace w) = Some (Returned VVoid)
  | Api.Err e =>
      let message := error_message e "Registration failed" in
      store w = {| user := user st; accessToken := accessToken st;
                   refreshToken := refreshToken st;
                   isAuthenticated := isAuthenticated st;
                   isLoading := false; error := Some message;
                   settings := settings st;
                   effectiveConfig := effectiveConfig st |} /\
      requests (trace w) = [Api.AuthRegister form] /\
      outcome_of 0 (trace w) = Some (Threw message)
  end.
Proof.
  intros form. open_state st. unroll. fold form.
  destruct (reply (Api.AuthRegister form)); cbn; repeat split.
Qed.


(** X4.  [setTokensFromOAuth] never rejects.  Whatever the server answers,
    four responses at most bring everything to an end, with at most one
    refresh, at most two [getCurrentUser] requests and exactly one settings
    fetch: the settings are fetched also when the tokens were turned down
    and the session has been cleared in between. *)
Theorem oauth_callback_always_fetches_settings
  (st : AuthState) (access refresh : string) (r1 r2 r3 r4 : Reply) :
  let w := run [Invoke (CallSetTokensFromOAuth access refresh);
                Respond 0 r1; Respond 0 r2; Respond 0 r3; Respond 0 r4]
               (init_world st) in
  pool w = [] /\
  outcome_of 0 (trace w) = Some (Returned VVoid) /\
  count is_get_settings (requests (trace w)) = 1 /\
  count is_refresh (requests (trace w)) <= 1 /\
  count is_get_current_user (requests (trace w)) <= 2.
Proof.
  open_state st. unroll. stuck_cases; repeat split; auto.
Qed.

(** X5.  When the server turns down the access token of an OAuth callback
    and the refresh token as well, nothing of the session is left: user,
    tokens, settings and flag are cleared.  The settings fetch is sent all
    the same, without an access token in the store. *)
Theorem oauth_callback_rejected
  (st : AuthState) (access refresh : string) (r1 r2 : Reply)
  (e1 e2 : Api.Error) :
  access <> "" ->
  refresh <> "" ->
  r1 Api.AuthGetCurrentUser = Api.Err e1 ->
  unauthorized e1 = true ->
  r2 (Api.AuthRefresh refresh) = Api.Err e2 ->
  let w := run [Invoke (CallSetTokensFromOAuth access refresh);
                Respond 0 r1; Respond 0 r2] (init_world st) in
  store w = {| user := None; accessToken := None; refreshToken := None;
               isAuthenticated := false; isLoading := false;
               error := error st; settings := None;
               effectiveConfig := None |} /\
  In (EvRequest 1 None Api.UserGetSettings) (trace w) /\
  in_flight w = [Api.UserGetSettings] /\
  outcome_of 0 (trace w) = Some (Returned VVoid).
Proof.
  intros Ha Hr H1 Hu H2. open_state st. nonempty access. nonempty refresh.
  unroll. rewrite H1. cbn. rewrite Hu. cbn. rewrite H2. cbn. repeat split.
  do 6 right. left. reflexivity.
Qed.

Lemma oauth_callback_rejected_witness :
  let w := run [Invoke (CallSetTokensFromOAuth "a0" "r0");
                Respond 0 (Sample.rejected (Sample.http 401));
                Respond 0 (Sample.rejected (Sample.http 401))]
               (init_world initial_state) in
  store w = initial_state /\
  in_flight w = [Api.UserGetSettings].
Proof.
  destruct (@oauth_callback_rejected initial_state "a0" "r0"
              (Sample.rejected (Sample.http 401))
              (Sample.rejected (Sample.http 401))
              (Sample.http 401) (Sample.http 401)
              ltac:(discriminate) ltac:(discriminate)
              eq_refl eq_refl eq_refl)
    as (Hs & _ & Hf & _).
  exact (conj Hs Hf).
Defined.

(** X6.  When the server accepts the access token, the OAuth callback ends
    with both tokens as given, the user from the server, the flag raised,
    and the settings fetch under way. *)
Theorem oauth_callback_success
  (st : AuthState) (access refresh : string) (reply : Reply)
  (profile : Api.User) :
  access <> "" ->
  reply Api.AuthGetCurrentUser = Api.Ok profile ->
  let w := run [Invoke (CallSetTokensFromOAuth access refresh);
                Respond 0 reply] (init_world st) in
  store w = {| user := Some profile; accessToken := Some access;
               refreshToken := Some refresh; isAuthenticated := true;
               isLoading := false; error := error st;
               settings := settings st;
               effectiveConfig := effectiveConfig st |} /\
  requests (trace w) = [Api.AuthGetCurrentUser; Api.UserGetSettings] /\
  in_flight w = [Api.UserGetSettings] /\
  outcome_of 0 (trace w) = Some (Returned VVoid).
Proof.
  intros Hne Hr. open_state st. nonempty access.
  unroll. rewrite Hr. cbn. repeat split.
Qed.

Lemma oauth_callback_success_witness :
  let w := run [Invoke (CallSetTokensFromOAuth "a1" "r1");
                Respond 0 (Sample.accepted "a1")]
               (init_world initial_state) in
  store w = {| user := Some Sample.ann; accessToken := Some "a1";
               refreshToken := Some "r1"; isAuthenticated := true;
               isLoading := false; error := None; settings := None;
               effectiveConfig := None |} /\
  in_flight w = [Api.UserGetSettings].
Proof.
  destruct (@oauth_callback_success initial_state "a1" "r1"
              (Sample.accepted "a1") Sample.ann ltac:(discriminate) eq_refl)
    as (Hs & _ & Hf & _).
  exact (conj Hs Hf).
Defined.

(** X7.  A successful [fetchSettings], [updateSettings] or [resetSetting]
    replaces [settings] and [effectiveConfig] by the server's pair in one
    [set]; no other field changes.  In particular the message of an earlier
    failure stays in [error]. *)
Theorem settings_success_replaces_both
  (st : AuthState) (r1 r2 r3 : Reply) (v1 v2 v3 : Api.Settings)
  (data : Api.UpdateSettingsRequest) (key : string) :
  r1 Api.UserGetSettings = Api.Ok v1 ->
  r2 (Api.UserUpdateSettings data) = Api.Ok v2 ->
  r3 (Api.UserResetSetting key) = Api.Ok v3 ->
  let replaced (v : Api.Settings) :=
    {| user := user st; accessToken := accessToken st;
       refreshToken := refreshToken st;
       isAuthenticated := isAuthenticated st; isLoading := isLoading st;
       error := error st; settings := Some (Api.settings v);
       effectiveConfig := Some (Api.effective_config v) |} in
  let once (v : Api.Settings) (r : Api.Request) :=
    [ EvRequest 0 (currentAccessToken st) r;
      EvSet [ set_settings (Some (Api.settings v));
              set_effectiveConfig (Some (Api.effective_config v)) ];
      EvSettled 0 (Returned VVoid) ] in
  (let w := run [Invoke CallFetchSettings; Respond 0 r1] (init_world st) in
   store w = replaced v1 /\ trace w = once v1 Api.UserGetSettings) /\
  (let w := run [Invoke (CallUpdateSettings data); Respond 0 r2]
                (init_world st) in
   store w = replaced v2 /\
   trace w = once v2 (Api.UserUpdateSettings data)) /\
  (let w := run [Invoke (CallResetSetting key); Respond 0 r3]
                (init_world st) in
   store w = replaced v3 /\
   trace w = once v3 (Api.UserResetSetting key)).
Proof.
  intros H1 H2 H3. open_state st. repeat split; unroll;
    rewrite ?H1, ?H2, ?H3; reflexivity.
Qed.

Lemma settings_success_replaces_both_witness :
  let w := run [Invoke (CallResetSetting "google_api_base");
                Respond 0 (Fixture.served "a1")]
               (init_world Sample.signed_in) in
  settings (store w) = Some Fixture.overrides /\
  effectiveConfig (store w) = Some Fixture.effective /\
  accessToken (store w) = Some "a1".
Proof.
  destruct (@settings_success_replaces_both Sample.signed_in
              (Fixture.served "a1") (Fixture.served "a1")
              (Fixture.served "a1") Fixture.view Fixture.view Fixture.view
              {| Api.new_google_api_key := None;
                 Api.new_google_api_base := None;
                 Api.new_mineru_token := None;
                 Api.new_mineru_api_base := None;
                 Api.new_image_caption_model := None;
                 Api.new_max_description_workers := None;
                 Api.new_max_image_workers := None |}
              "google_api_base" eq_refl eq_refl eq_refl)
    as (_ & _ & Hs & _).
  exact (conj (f_equal settings Hs)
              (conj (f_equal effectiveConfig Hs) (f_equal accessToken Hs))).
Defined.

(** X8.  A [getCurrentUser] that succeeds replaces the user and raises the
    flag without touching the tokens.  One that fails with anything but
    401 (another status, or no response at all) is not followed by a
    refresh: [isLoading] is reset and nothing else changes. *)
Theorem fetchCurrentUser_without_refresh
  (st : AuthState) (reply : Reply) :
  truthy (accessToken st) = true ->
  let w := run [Invoke CallFetchCurrentUser; Respond 0 reply]
               (init_world st) in
  match reply Api.AuthGetCurrentUser with
  | Api.Ok profile =>
      store w = {| user := Some profile; accessToken := accessToken st;
                   refreshToken := refreshToken st;
                   isAuthenticated := true; isLoading := false;
                   error := error st; settings := settings st;
                   effectiveConfig := effectiveConfig st |} /\
      requests (trace w) = [Api.AuthGetCurrentUser] /\
      pool w = []
  | Api.Err e =>
      unauthorized e = false ->
      store w = {| user := user st; accessToken := accessToken st;
                   refreshToken := refreshToken st;
                   isAuthenticated := isAuthenticated st;
                   isLoading := false; error := error st;
                   settings := settings st;
                   effectiveConfig := effectiveConfig st |} /\
      requests (trace w) = [Api.AuthGetCurrentUser] /\
      outcome_of 0 (trace w) = Some (Returned VVoid) /\
      pool w = []
  end.
Proof.
  intros Ha. apply truthy_some in Ha as (c & s & Ha).
  open_state st. unroll.
  destruct (reply Api.AuthGetCurrentUser) as [profile|e]; cbn.
  - repeat split.
  - intros Hu. rewrite Hu. cbn. repeat split.
Qed.

Lemma fetchCurrentUser_without_refresh_witness :
  let w := run [Invoke CallFetchCurrentUser;
                Respond 0 (Sample.rejected (Sample.http 500))]
               (init_world Sample.signed_in) in
  store w = Sample.signed_in /\
  requests (trace w) = [Api.AuthGetCurrentUser].
Proof.
  destruct (@fetchCurrentUser_without_refresh Sample.signed_in
              (Sample.rejected (Sample.http 500)) eq_refl eq_refl)
    as (Hs & Hq & _).
  exact (conj Hs Hq).
Defined.

(** X9.  [fetchCurrentUser] never rejects and never leaves [isLoading]
    set: whatever the server answers, three responses at most bring it to
    its end, with [isLoading] false, after at most one refresh and at most
    two [getCurrentUser] requests. *)
Theorem fetchCurrentUser_always_stops_loading
  (st : AuthState) (r1 r2 r3 : Reply) :
  truthy (accessToken st) = true ->
  let w := run [Invoke CallFetchCurrentUser;
                Respond 0 r1; Respond 0 r2; Respond 0 r3]
               (init_world st) in
  pool w = [] /\
  isLoading (store w) = false /\
  outcome_of 0 (trace w) = Some (Returned VVoid) /\
  count is_refresh (requests (trace w)) <= 1 /\
  count is_get_current_user (requests (trace w)) <= 2 /\
  length (requests (trace w)) <= 3.
Proof.
  intros Ha. apply truthy_some in Ha as (c & s & Ha).
  open_state st. unroll. stuck_cases; repeat split; auto.
Qed.

Lemma fetchCurrentUser_always_stops_loading_witness :
  let w := run [Invoke CallFetchCurrentUser;
                Respond 0 (Sample.rejected (Sample.http 401));
                Respond 0 (Sample.accepted "a2");
                Respond 0 (Sample.accepted "a2")]
               (init_world Sample.signed_in) in
  pool w = [] /\ isLoading (store w) = false.
Proof.
  destruct (@fetchCurrentUser_always_stops_loading Sample.signed_in
              (Sample.rejected (Sample.http 401)) (Sample.accepted "a2")
              (Sample.accepted "a2") eq_refl)
    as (Hp & Hl & _).
  exact (conj Hp Hl).
Defined.

(* ------------------------------------------------------------------ *)
(** ** Frames: what a run cannot change *)

Section Frame.

Variable ok : Assign -> bool.
Variable Inv : AuthState -> Prop.
Hypothesis ok_keeps :
  forall a st, ok a = true -> Inv st -> Inv (assign st a).

Lemma apply_patch_keeps (partial : Patch) :
  forallb ok partial = true ->
  forall st, Inv st -> Inv (apply_patch partial st).
Proof.
  unfold apply_patch. induction partial as [|a partial IH]; cbn; intros H st Hi.
  - exact Hi.
  - apply andb_true_iff in H as [Ha Hp]. apply IH; [exact Hp|].
    now apply ok_keeps.
Qed.

Lemma exec_writes (A : Type) (p : Proc A) :
  Writes ok p ->
  forall me w,
    Inv (store w) ->
    Forall (WritesTask ok) (pool w) ->
    kept ok Inv (match fst (exec me p w) with
          | Suspended r k => forall x, Writes ok (k x)
          | Done _ => True
          end)
         (snd (exec me p w)).
Proof.
  unfold kept.
  induction 1 as [A a|A m|A k Hk IH|A partial k Hp Hk IH|A l e k Hk IH
                 |A child k Hc IHc Hk IHk|A r k Hk IH];
    intros me w Hi Hpool; cbn.
  - auto.
  - auto.
  - now apply IH.
  - apply IH; cbn; [now apply apply_patch_keeps|exact Hpool].
  - now apply IH.
  - destruct (IHc (next_caller w) (bump w) Hi Hpool) as (Hi1 & Hp1 & Hs1).
    destruct (exec (next_caller w) child (bump w)) as [s w1].
    cbn in Hi1, Hp1, Hs1. apply IHk.
    + destruct s; exact Hi1.
    + destruct s as [o|r k']; cbn; [exact Hp1|].
      apply Forall_app. split; [exact Hp1|].
      constructor; [exact Hs1|constructor].
  - auto.
Qed.

Lemma settle_writes (A : Type) (show : A -> Val) me (s : Status A) w :
  kept ok Inv (match s with
        | Suspended r k => forall x, Writes ok (k x)
        | Done _ => True
        end) w ->
  kept ok Inv True (settle me show s w).
Proof.
  unfold kept. intros (Hi & Hp & Hs). destruct s as [o|r k]; cbn.
  - auto.
  - split; [exact Hi|]. split; [|exact I].
    apply Forall_app. split; [exact Hp|]. constructor; [exact Hs|constructor].
Qed.

Lemma invoke_writes (c : Call) (w : World) :
  body_writes ok c -> kept ok Inv True w -> kept ok Inv True (invoke c w).
Proof.
  unfold body_writes, invoke. intros Hb (Hi & Hp & _).
  destruct (body c) as [p|p]; unfold start.
  - pose proof (exec_writes Hb (next_caller w) (bump w) Hi Hp) as H.
    destruct (exec (next_caller w) p (bump w)) as [s w1].
    now apply settle_writes.
  - pose proof (exec_writes Hb (next_caller w) (bump w) Hi Hp) as H.
    destruct (exec (next_caller w) p (bump w)) as [s w1].
    now apply settle_writes.
Qed.

Lemma respond_writes (i : nat) (reply : Reply) (w : World) :
  kept ok Inv True w -> kept ok Inv True (respond i reply w).
Proof.
  intros (Hi & Hp & _). unfold respond.
  destruct (take_nth i (pool w)) as [[t rest]|] eqn:E;
    [|now repeat split].
  destruct (take_nth_Forall _ E Hp) as [Ht Hrest].
  pose proof (exec_writes (Ht (reply (request t))) (caller t)
                (with_pool rest w) Hi Hrest) as H.
  destruct (exec (caller t) (resume t (reply (request t)))
              (with_pool rest w)) as [s w1].
  now apply settle_writes.
Qed.

Lemma run_writes (schedule : list Step) :
  (forall c, In (Invoke c) schedule -> body_writes ok c) ->
  forall w, kept ok Inv True w -> kept ok Inv True (run schedule w).
Proof.
  induction schedule as [|[c|i reply] rest IH]; intros Hb w Hw.
  - exact Hw.
  - rewrite run_cons. apply IH.
    + intros c' Hin. apply Hb. now right.
    + apply invoke_writes; [|exact Hw]. apply Hb. now left.
  - rewrite run_cons. apply IH.
    + intros c' Hin. apply Hb. now right.
    + now apply respond_writes.
Qed.

End Frame.

Lemma settings_steps_write_settings (schedule : list Step) :
  forallb settings_step schedule = true ->
  forall c, In (Invoke c) schedule -> body_writes settings_write c.
Proof.
  intros H c Hin. rewrite forallb_forall in H. specialize (H _ Hin).
  unfold body_writes.
  destruct c; try discriminate; cbn [body];
    unfold fetchSettings, updateSettings, resetSetting, clearError, setError,
      Settings_load_settings; writes.
Qed.

(** X10.  Settings traffic only ever changes [settings], [effectiveConfig]
    and [error].  Start any number of settings actions, [clearError] and
    [setError] calls and let the responses arrive in any order: user,
    tokens, flag and [isLoading] are as before, and so is what the store
    persists. *)
Theorem settings_traffic_keeps_the_rest
  (schedule : list Step) (w : World) :
  forallb settings_step schedule = true ->
  Forall (WritesTask settings_write) (pool w) ->
  let w' := run schedule w in
  partialize (store w') = partialize (store w) /\
  isLoading (store w') = isLoading (store w).
Proof.
  intros Hs Hp.
  destruct (@run_writes settings_write
              (fun st => partialize st = partialize (store w) /\
                         isLoading st = isLoading (store w)))
    with (schedule := schedule) (w := w) as (Hi & _).
  - intros a st Ha [Hq Hl]. destruct a; try discriminate; cbn; auto.
  - now apply settings_steps_write_settings.
  - repeat split. exact Hp.
  - exact Hi.
Qed.

Lemma settings_traffic_keeps_the_rest_witness :
  let w' := run [Invoke CallFetchSettings;
                 Invoke (CallResetSetting "google_api_base");
                 Invoke (CallSetError "oops");
                 Respond 1 (Fixture.served "a1");
                 Respond 0 (Sample.rejected (Sample.http 500))]
                (init_world Sample.signed_in) in
  partialize (store w') = partialize Sample.signed_in /\
  isLoading (store w') = false.
Proof.
  apply (@settings_traffic_keeps_the_rest
           [Invoke CallFetchSettings;
            Invoke (CallResetSetting "google_api_base");
            Invoke (CallSetError "oops");
            Respond 1 (Fixture.served "a1");
            Respond 0 (Sample.rejected (Sample.http 500))]
           (init_world Sample.signed_in)).
  - reflexivity.
  - constructor.
Defined.

Lemma other_steps_keep_refresh_token (schedule : list Step) :
  forallb not_signing_in schedule = true ->
  forall c, In (Invoke c) schedule -> body_writes keeps_refresh_token c.
Proof.
  intros H c Hin. rewrite forallb_forall in H. specialize (H _ Hin).
  unfold body_writes.
  destruct c; try discriminate; cbn [body];
    unfold logout, refreshAccessToken, fetchCurrentUser,
      fetchCurrentUser_settled, fetchSettings, updateSettings, resetSetting,
      clearError, setError, App_restore_login, Settings_load_settings;
    writes.
Qed.

(** X11.  Only [login], [register] and [setTokensFromOAuth] put a refresh
    token into the store.  Under any interleaving of the other actions and
    of the responses, the refresh token is the one held at the outset or
    has been dropped: a refresh never rotates it. *)
Theorem refresh_token_is_never_replaced
  (schedule : list Step) (st : AuthState) :
  forallb not_signing_in schedule = true ->
  let st' := store (run schedule (init_world st)) in
  refreshToken st' = refreshToken st \/ refreshToken st' = None.
Proof.
  intros Hs.
  destruct (@run_writes keeps_refresh_token
              (fun s => refreshToken s = refreshToken st \/
                        refreshToken s = None))
    with (schedule := schedule) (w := init_world st) as (Hi & _).
  - intros a s Ha Hi. destruct a as [| |[t|]| | | | |]; try discriminate;
      cbn; auto.
  - now apply other_steps_keep_refresh_token.
  - repeat split; [now left|constructor].
  - exact Hi.
Qed.

Lemma refresh_token_is_never_replaced_witness :
  let st' := store (run [Invoke CallFetchCurrentUser;
                         Invoke CallRefreshAccessToken;
                         Respond 1 (Sample.accepted "a2");
                         Respond 0 (Sample.rejected (Sample.http 401));
                         Respond 0 (Sample.accepted "a3")]
                        (init_world Sample.signed_in)) in
  refreshToken st' = Some "r1" \/ refreshToken st' = None.
Proof.
  apply (@refresh_token_is_never_replaced
           [Invoke CallFetchCurrentUser; Invoke CallRefreshAccessToken;
            Respond 1 (Sample.accepted "a2");
            Respond 0 (Sample.rejected (Sample.http 401));
            Respond 0 (Sample.accepted "a3")]
           Sample.signed_in).
  reflexivity.
Defined.

(* ------------------------------------------------------------------ *)
(** ** The pages that drive the store *)

Lemma answer_done (A : Type) (me : nat) (o : Outcome A) (w : World)
  (replies : list Reply) :
  answer me (Done o) w replies = (Done o, w).
Proof. now destruct replies. Qed.

Lemma error_message_nonempty (e : Api.Error) (fallback : string) :
  fallback <> "" -> error_message e fallback <> "".
Proof.
  intros Hf. unfold error_message.
  destruct (Api.response e) as [r|]; [|exact Hf].
  destruct (Api.data_error r) as [[|c m]|]; cbn;
    try exact Hf; discriminate.
Qed.

Lemma or_else_nonempty (s fallback : string) :
  s <> "" -> or_else s fallback = s.
Proof. destruct s; [congruence|reflexivity]. Qed.

(** [.length] counts UTF-16 code units, not bytes and not characters. *)
Remark length_counts_code_units :
  Js.length "ann" = 3 /\ Js.length "日本" = 2 /\
  Js.length "密码密码密" = 5 /\ Js.length "😀" = 2.
Proof. repeat split. Qed.

(** X12.  The registration form is checked before anything is sent.
    Either all checks pass (no empty field, a user name of at least 3 and
    a password of at least 6 UTF-16 code units, both passwords equal) and the one
    request that goes out is the registration with the fields of the form;
    or nothing is sent at all, a message is shown, and the page stays.  In
    both cases the error of the store has been cleared first. *)
Theorem register_page_validates_before_sending
  (f : RegisterPage.Form) (st : AuthState) (replies : list Reply) :
  let checks :=
    RegisterPage.username f <> "" /\ RegisterPage.email f <> "" /\
    RegisterPage.password f <> "" /\
    3 <= Js.length (RegisterPage.username f) /\
    6 <= Js.length (RegisterPage.password f) /\
    RegisterPage.password f = RegisterPage.confirmPassword f in
  let sw := perform (RegisterPage.handleSubmit f) replies (init_world st) in
  In (EvSet [set_error None]) (trace (snd sw)) /\
  ((checks /\
    hd_error (requests (trace (snd sw))) =
      Some (Api.AuthRegister
              {| Api.reg_username := RegisterPage.username f;
                 Api.reg_email := RegisterPage.email f;
                 Api.reg_password := RegisterPage.password f;
                 Api.verification_code := None |})) \/
   (~ checks /\
    requests (trace (snd sw)) = [] /\
    pool (snd sw) = [] /\
    exists message,
      message <> "" /\
      result (fst sw) = Some (Returned (RegisterPage.stay message)))).
Proof.
  destruct f as [u e p c].
  destruct st as [usr acc ref auth loading err sett eff]. cbn -[Nat.ltb Js.length].
  unfold perform, RegisterPage.handleSubmit. cbn -[Nat.ltb Js.length].
  destruct (String.eqb_spec u "") as [->|Hu]; cbn -[Nat.ltb Js.length].
  { rewrite answer_done. cbn. split; [now left|]. right.
    repeat split; [tauto| eexists; split; [|reflexivity]; discriminate]. }
  destruct (String.eqb_spec e "") as [->|He]; cbn -[Nat.ltb Js.length].
  { rewrite answer_done. cbn. split; [now left|]. right.
    repeat split; [tauto| eexists; split; [|reflexivity]; discriminate]. }
  destruct (String.eqb_spec p "") as [->|Hp]; cbn -[Nat.ltb Js.length].
  { rewrite answer_done. cbn. split; [now left|]. right.
    repeat split; [tauto| eexists; split; [|reflexivity]; discriminate]. }
  destruct (Nat.ltb_spec (Js.length u) 3) as [Hlu|Hlu]; cbn -[Nat.ltb Js.length].
  { rewrite answer_done. cbn. split; [now left|]. right.
    repeat split; [lia| eexists; split; [|reflexivity]; discriminate]. }
  destruct (Nat.ltb_spec (Js.length p) 6) as [Hlp|Hlp]; cbn -[Nat.ltb Js.length].
  { rewrite answer_done. cbn. split; [now left|]. right.
    repeat split; [lia| eexists; split; [|reflexivity]; discriminate]. }
  destruct (String.eqb_spec p c) as [->|Hpc]; cbn.
  2:{ rewrite answer_done. cbn. split; [now left|]. right.
      repeat split; [tauto| eexists; split; [|reflexivity]; discriminate]. }
  destruct replies as [|reply rest]; cbn.
  - split; [now left|]. left. repeat split; auto.
  - match goal with
    | |- context [reply ?q] => destruct (reply q) as [response|failure]
    end; cbn; rewrite answer_done; cbn.
    + split; [now left|]. left. repeat split; auto.
    + split; [now left|]. left. repeat split; auto.
Qed.

(** X13.  When the form passes its checks, the page shows what the store
    reports.  A refused registration leaves the page where it is, showing
    exactly the message that the store has put into [error]; the page's
    own default text is never used.  An accepted one navigates to ["/"]
    with the session stored and the settings fetch under way. *)
Theorem register_page_shows_what_the_store_reports
  (f : RegisterPage.Form) (st : AuthState) (reply : Reply) :
  RegisterPage.username f <> "" ->
  RegisterPage.email f <> "" ->
  3 <= Js.length (RegisterPage.username f) ->
  6 <= Js.length (RegisterPage.password f) ->
  RegisterPage.password f = RegisterPage.confirmPassword f ->
  let sw := perform (RegisterPage.handleSubmit f) [reply] (init_world st) in
  match reply (Api.AuthRegister
                 {| Api.reg_username := RegisterPage.username f;
                    Api.reg_email := RegisterPage.email f;
                    Api.reg_password := RegisterPage.password f;
                    Api.verification_code := None |}) with
  | Api.Ok response =>
      result (fst sw) =
        Some (Returned {| RegisterPage.localError := "";
                          RegisterPage.navigated := Some "/" |}) /\
      isAuthenticated (store (snd sw)) = true /\
      accessToken (store (snd sw)) = Some (Api.access_token response) /\
      in_flight (snd sw) = [Api.UserGetSettings]
  | Api.Err e =>
      let message := error_message e "Registration failed" in
      result (fst sw) = Some (Returned (RegisterPage.stay message)) /\
      error (store (snd sw)) = Some message /\
      isAuthenticated (store (snd sw)) = isAuthenticated st /\
      pool (snd sw) = []
  end.
Proof.
  destruct f as [u e p c].
  destruct st as [usr acc ref auth loading err sett eff]. cbn -[Nat.ltb Js.length].
  intros Hu He Hlu Hlp <-.
  assert (Hp : p <> "") by (destruct p; [cbn in Hlp; lia|discriminate]).
  unfold perform, RegisterPage.handleSubmit. cbn -[Nat.ltb Js.length].
  destruct (String.eqb_spec u "") as [|_]; [contradiction|].
  destruct (String.eqb_spec e "") as [|_]; [contradiction|].
  destruct (String.eqb_spec p "") as [|_]; [contradiction|]. cbn -[Nat.ltb Js.length].
  destruct (Nat.ltb_spec (Js.length u) 3); [lia|].
  destruct (Nat.ltb_spec (Js.length p) 6); [lia|].
  rewrite String.eqb_refl. cbn.
  match goal with
  | |- context [reply ?q] => destruct (reply q) as [response|failure]
  end; cbn.
  - repeat split.
  - rewrite or_else_nonempty
      by (apply error_message_nonempty; discriminate).
    repeat split.
Qed.

Lemma register_page_shows_what_the_store_reports_witness :
  let sw := perform
              (RegisterPage.handleSubmit
                 {| RegisterPage.username := "安娜一";
                    RegisterPage.email := "ann@example.org";
                    RegisterPage.password := "secret";
                    RegisterPage.confirmPassword := "secret" |})
              [Fixture.refused 409 "Email already registered"]
              (init_world initial_state) in
  result (fst sw) =
    Some (Returned (RegisterPage.stay "Email already registered")) /\
  error (store (snd sw)) = Some "Email already registered".
Proof.
  destruct (@register_page_shows_what_the_store_reports
              {| RegisterPage.username := "安娜一";
                 RegisterPage.email := "ann@example.org";
                 RegisterPage.password := "secret";
                 RegisterPage.confirmPassword := "secret" |}
              initial_state
              (Fixture.refused 409 "Email already registered")
              ltac:(discriminate) ltac:(discriminate)
              ltac:(vm_compute; lia) ltac:(vm_compute; lia) eq_refl)
    as (Hr & He & _).
  exact (conj Hr He).
Defined.

(** X14.  The OAuth callback page stores and sends nothing unless both
    tokens are there and no error is reported, and it does not navigate
    then.  With an [error] parameter the tokens are ignored even when
    present: the page shows the decoded error, or, when
    [decodeURIComponent] throws on the parameter, the handler rejects with
    that [URIError] and the page shows no error at all.  Without an
    [error] parameter and with a token missing, it shows the
    invalid-parameters message. *)
Theorem oauth_page_needs_both_tokens_and_no_error
  (decodeURIComponent : string -> Outcome string)
  (searchParams : AuthCallback.Params) (st : AuthState)
  (replies : list Reply) :
  truthy (AuthCallback.error searchParams) = true \/
  truthy (AuthCallback.access_token searchParams) = false \/
  truthy (AuthCallback.refresh_token searchParams) = false ->
  let sw := perform (AuthCallback.handleCallback decodeURIComponent
                       searchParams) replies (init_world st) in
  store (snd sw) = st /\
  trace (snd sw) = [] /\
  pool (snd sw) = [] /\
  let invalid := {| AuthCallback.shown_error := Some "无效的回调参数";
                    AuthCallback.navigated := None |} in
  result (fst sw) =
    Some match AuthCallback.error searchParams with
         | None | Some "" => Returned invalid
         | Some errorParam =>
             match decodeURIComponent errorParam with
             | Returned text =>
                 Returned {| AuthCallback.shown_error := Some text;
                             AuthCallback.navigated := None |}
             | Threw uri_error => Threw uri_error
             end
         end.
Proof.
  destruct searchParams as [a r e]. cbn. intros H.
  unfold perform, AuthCallback.handleCallback. cbn.
  destruct e as [[|c e]|]; cbn in *.
  - destruct a as [[|? ?]|], r as [[|? ?]|]; cbn in *;
      try (rewrite answer_done; cbn; now repeat split);
      destruct H as [H|[H|H]]; discriminate.
  - destruct (decodeURIComponent (String c e)); cbn;
      rewrite answer_done; cbn; now repeat split.
  - destruct a as [[|? ?]|], r as [[|? ?]|]; cbn in *;
      try (rewrite answer_done; cbn; now repeat split);
      destruct H as [H|[H|H]]; discriminate.
Qed.

Lemma oauth_page_needs_both_tokens_and_no_error_witness :
  let decodeURIComponent (s : string) : Outcome string :=
    if (s =? "%")%string then Threw "URI malformed" else Returned s in
  let sw := perform
              (AuthCallback.handleCallback decodeURIComponent
                 {| AuthCallback.access_token := Some "a1";
                    AuthCallback.refresh_token := Some "r1";
                    AuthCallback.error := Some "%" |})
              [Sample.accepted "a1"] (init_world initial_state) in
  store (snd sw) = initial_state /\
  trace (snd sw) = [] /\
  result (fst sw) = Some (Threw "URI malformed").
Proof.
  destruct (@oauth_page_needs_both_tokens_and_no_error
              (fun s => if (s =? "%")%string then Threw "URI malformed"
                        else Returned s)
              {| AuthCallback.access_token := Some "a1";
                 AuthCallback.refresh_token := Some "r1";
                 AuthCallback.error := Some "%" |}
              initial_state [Sample.accepted "a1"] (or_introl eq_refl))
    as (Hs & Ht & _ & Hr).
  exact (conj Hs (conj Ht Hr)).
Defined.

(** X15.  With both tokens and no error, the callback page always ends by
    navigating to ["/"]: [setTokensFromOAuth] does not reject whatever the
    server answers, so the page's "login failed" branch is never taken,
    not even when the tokens were turned down and the session is gone. *)
Theorem oauth_page_always_navigates_home
  (decodeURIComponent : string -> Outcome string)
  (searchParams : AuthCallback.Params) (st : AuthState)
  (r1 r2 r3 : Reply) :
  truthy (AuthCallback.error searchParams) = false ->
  truthy (AuthCallback.access_token searchParams) = true ->
  truthy (AuthCallback.refresh_token searchParams) = true ->
  let sw := perform (AuthCallback.handleCallback decodeURIComponent
                       searchParams) [r1; r2; r3] (init_world st) in
  result (fst sw) =
    Some (Returned {| AuthCallback.shown_error := None;
                      AuthCallback.navigated := Some "/" |}) /\
  in_flight (snd sw) = [Api.UserGetSettings].
Proof.
  destruct searchParams as [a r e]. cbn. intros He Ha Hr.
  apply truthy_some in Ha as (ca & sa & ->).
  apply truthy_some in Hr as (cr & sr & ->).
  open_state st.
  unfold perform, AuthCallback.handleCallback.
  destruct e as [[|c e]|]; try discriminate;
    cbn; stuck_cases; repeat split.
Qed.

Lemma oauth_page_always_navigates_home_witness :
  let sw := perform
              (AuthCallback.handleCallback (fun s => Returned s)
                 {| AuthCallback.access_token := Some "a0";
                    AuthCallback.refresh_token := Some "r0";
                    AuthCallback.error := None |})
              [Sample.rejected (Sample.http 401);
               Sample.rejected (Sample.http 401);
               Sample.rejected (Sample.http 401)]
              (init_world initial_state) in
  result (fst sw) =
    Some (Returned {| AuthCallback.shown_error := None;
                      AuthCallback.navigated := Some "/" |}) /\
  isAuthenticated (store (snd sw)) = false.
Proof.
  destruct (@oauth_page_always_navigates_home (fun s => Returned s)
              {| AuthCallback.access_token := Some "a0";
                 AuthCallback.refresh_token := Some "r0";
                 AuthCallback.error := None |}
              initial_state
              (Sample.rejected (Sample.http 401))
              (Sample.rejected (Sample.http 401))
              (Sample.rejected (Sample.http 401))
              eq_refl eq_refl eq_refl)
    as (Hr & _).
  exact (conj Hr eq_refl).
Defined.

(** X16.  The settings form never sends an empty value.  An input left
    empty (or a worker count of zero) is left out of the request, so
    saving cannot blank an override; and a form that was filled from the
    stored settings and saved untouched sends no secret and, for every
    other field, exactly the override that is stored, if there is one. *)
Theorem settings_form_never_sends_an_empty_value
  (f : SettingsPage.Form) (s : Api.UserSettings) :
  (let r := SettingsPage.request_of f in
   Api.new_google_api_key r <> Some "" /\
   Api.new_google_api_base r <> Some "" /\
   Api.new_mineru_token r <> Some "" /\
   Api.new_mineru_api_base r <> Some "" /\
   Api.new_image_caption_model r <> Some "" /\
   Api.new_max_description_workers r <> Some 0%Z /\
   Api.new_max_image_workers r <> Some 0%Z) /\
  (let r := SettingsPage.request_of
              (SettingsPage.populate (Some s) SettingsPage.empty_form) in
   let stored (v : option string) := if truthy v then v else None in
   let stored_number (v : option Z) :=
     match v with Some 0%Z => None | _ => v end in
   Api.new_google_api_key r = None /\
   Api.new_mineru_token r = None /\
   Api.new_google_api_base r = stored (Api.google_api_base s) /\
   Api.new_mineru_api_base r = stored (Api.mineru_api_base s) /\
   Api.new_image_caption_model r = stored (Api.image_caption_model s) /\
   Api.new_max_description_workers r =
     stored_number (Api.max_description_workers s) /\
   Api.new_max_image_workers r = stored_number (Api.max_image_workers s)).
Proof.
  split.
  - destruct f as [k b t m c d i]. cbn.
    repeat split;
      match goal with
      | |- SettingsPage.given ?x <> _ => destruct x; cbn; discriminate
      | |- SettingsPage.given_number ?x <> _ =>
          destruct x as [[| |]|]; cbn; discriminate
      end.
  - destruct s as [? ? b m c d i ? ? ? ?]. cbn.
    repeat split;
      match goal with
      | |- context [SettingsPage.string_or_empty ?x] =>
          destruct x as [[|? ?]|]; reflexivity
      | |- context [SettingsPage.number_or_empty ?x] =>
          destruct x as [[| |]|]; reflexivity
      end.
Qed.

(** X17.  Saving clears the two secret inputs when, and only when, the
    update went through.  On success the page reports success, keeps the
    other inputs, and the store holds the server's settings.  On failure
    every input keeps its text, the secrets included, and the page shows
    exactly the message that the store has put into [error]. *)
Theorem save_clears_secrets_only_on_success
  (p : SettingsPage.Page) (st : AuthState) (reply : Reply) :
  let sw := perform (SettingsPage.handleSave p) [reply] (init_world st) in
  match reply (Api.UserUpdateSettings
                 (SettingsPage.request_of (SettingsPage.form p))) with
  | Api.Ok v =>
      result (fst sw) =
        Some (Returned
                {| SettingsPage.form :=
                     SettingsPage.clear_secrets (SettingsPage.form p);
                   SettingsPage.isSaving := false;
                   SettingsPage.message :=
                     Some (SettingsPage.success, "设置已保存") |}) /\
      settings (store (snd sw)) = Some (Api.settings v) /\
      effectiveConfig (store (snd sw)) = Some (Api.effective_config v)
  | Api.Err e =>
      let message := error_message e "Failed to update settings" in
      result (fst sw) =
        Some (Returned
                {| SettingsPage.form := SettingsPage.form p;
                   SettingsPage.isSaving := false;
                   SettingsPage.message :=
                     Some (SettingsPage.error, message) |}) /\
      error (store (snd sw)) = Some message /\
      settings (store (snd sw)) = settings st /\
      effectiveConfig (store (snd sw)) = effectiveConfig st
  end.
Proof.
  destruct p as [f saving msg]. open_state st.
  unfold perform, SettingsPage.handleSave. cbn.
  match goal with
  | |- context [reply ?q] => destruct (reply q) as [v|failure]
  end; cbn.
  - repeat split.
  - rewrite or_else_nonempty
      by (apply error_message_nonempty; discriminate).
    repeat split.
Qed.

(* ------------------------------------------------------------------ *)
(** ** The password reset page *)

Lemma ticks_count_down (k : nat) :
  forall s : ForgotPassword.State,
    (0 <= ForgotPassword.countdown s)%Z ->
    ForgotPassword.countdown (Nat.iter k ForgotPassword.tick s) =
      Z.max 0 (ForgotPassword.countdown s - Z.of_nat k) /\
    ForgotPassword.isSendingCode (Nat.iter k ForgotPassword.tick s) =
      ForgotPassword.isSendingCode s.
Proof.
  induction k as [|k IH]; intros s Hs.
  - change (Nat.iter 0 ForgotPassword.tick s) with s.
    split; [lia|reflexivity].
  - destruct (IH s Hs) as [Hc Hi].
    change (Nat.iter (S k) ForgotPassword.tick s)
      with (ForgotPassword.tick (Nat.iter k ForgotPassword.tick s)).
    unfold ForgotPassword.tick at 1 3.
    destruct (Z.ltb_spec 0
                (ForgotPassword.countdown (Nat.iter k ForgotPassword.tick s)));
      cbn; rewrite ?Hc, ?Hi in *; split; try reflexivity; lia.
Qed.

Lemma disabled_while_counting (s : ForgotPassword.State) (k : nat) :
  (0 <= ForgotPassword.countdown s)%Z ->
  ForgotPassword.isSendingCode s = false ->
  ForgotPassword.resend_disabled (Nat.iter k ForgotPassword.tick s) =
    (Z.of_nat k <? ForgotPassword.countdown s)%Z.
Proof.
  intros Hc Hi. destruct (ticks_count_down k s Hc) as [Hk Hik].
  unfold ForgotPassword.resend_disabled. rewrite Hk, Hik, Hi. cbn [orb].
  destruct (Z.ltb_spec 0 (Z.max 0 (ForgotPassword.countdown s - Z.of_nat k)));
    destruct (Z.ltb_spec (Z.of_nat k) (ForgotPassword.countdown s));
    try reflexivity; lia.
Qed.

(** X18.  After [handleSendCode] has sent its request, the "resend" button
    is disabled for exactly as many ticks as the countdown was set to: 60
    after a code was sent, the server's [wait_seconds] after a refusal
    that carries one (a rate limit), and otherwise what was left of a
    countdown already running.  [isSendingCode] is reset in every case. *)
Theorem resend_waits_as_long_as_the_server_says
  (s : ForgotPassword.State)
  (reply : ForgotPassword.Settled ForgotPassword.CodeSent) :
  ForgotPassword.email s <> "" ->
  includes "@" (ForgotPassword.email s) = true ->
  let s' := fst (ForgotPassword.handleSendCode s reply) in
  let wait :=
    match reply with
    | ForgotPassword.Ok _ => 60%Z
    | ForgotPassword.Err err =>
        match ForgotPassword.wait_seconds err with
        | Some 0%Z | None => ForgotPassword.countdown s
        | Some seconds => seconds
        end
    end in
  ForgotPassword.countdown s' = wait /\
  ForgotPassword.isSendingCode s' = false /\
  ((0 <= wait)%Z ->
   forall k,
     ForgotPassword.resend_disabled (Nat.iter k ForgotPassword.tick s') =
       (Z.of_nat k <? wait)%Z).
Proof.
  intros He Hat. cbn zeta. unfold ForgotPassword.handleSendCode.
  destruct (String.eqb_spec (ForgotPassword.email s) "") as [|_];
    [contradiction|].
  rewrite Hat. cbn [negb orb].
  destruct reply as [response|err]; cbn [fst].
  - split; [reflexivity|]. split; [reflexivity|]. intros Hw k.
    now apply disabled_while_counting.
  - split; [reflexivity|]. split; [reflexivity|]. intros Hw k.
    now apply disabled_while_counting.
Qed.

Lemma resend_waits_as_long_as_the_server_says_witness :
  let s := ForgotPassword.typeEmail "ann@example.org"
             ForgotPassword.initial in
  let s' := fst (ForgotPassword.handleSendCode s
                   (ForgotPassword.Err
                      {| ForgotPassword.data_error := Some "Too many requests";
                         ForgotPassword.wait_seconds := Some 45%Z |})) in
  ForgotPassword.countdown s' = 45%Z /\
  ForgotPassword.resend_disabled (Nat.iter 44 ForgotPassword.tick s') = true /\
  ForgotPassword.resend_disabled (Nat.iter 45 ForgotPassword.tick s') = false.
Proof.
  destruct (@resend_waits_as_long_as_the_server_says
              (ForgotPassword.typeEmail "ann@example.org"
                 ForgotPassword.initial)
              (ForgotPassword.Err
                 {| ForgotPassword.data_error := Some "Too many requests";
                    ForgotPassword.wait_seconds := Some 45%Z |})
              ltac:(discriminate) eq_refl)
    as (Hc & _ & Hk).
  exact (conj Hc (conj (Hk ltac:(discriminate) 44) (Hk ltac:(discriminate) 45))).
Defined.

(** X19.  Each of the three handlers checks its input before it sends
    anything.  A request only goes out for an address that is not empty
    and contains ["@"], for a code of exactly six UTF-16 code units, and for
    a new password of at least six that equals its confirmation; it
    carries the values of the state.  When a check fails nothing is sent
    and the step stays the same. *)
Theorem reset_page_checks_before_sending
  (s : ForgotPassword.State)
  (r1 : ForgotPassword.Settled ForgotPassword.CodeSent)
  (r2 : ForgotPassword.Settled ForgotPassword.CodeChecked)
  (r3 : ForgotPassword.Settled unit) :
  let e := ForgotPassword.email s in
  let code := ForgotPassword.verificationCode s in
  let pw := ForgotPassword.newPassword s in
  match ForgotPassword.handleSendCode s r1 with
  | (_, Some q) =>
      q = ForgotPassword.SendVerificationCode e "reset_password" /\
      e <> "" /\ includes "@" e = true
  | (s', None) =>
      ForgotPassword.step s' = ForgotPassword.step s /\
      ForgotPassword.error s' <> "" /\
      (e = "" \/ includes "@" e = false)
  end /\
  match ForgotPassword.handleVerifyCode s r2 with
  | (_, Some q) =>
      q = ForgotPassword.VerifyCode e code "reset_password" /\
      Js.length code = 6
  | (s', None) =>
      ForgotPassword.step s' = ForgotPassword.step s /\
      ForgotPassword.error s' <> "" /\
      Js.length code <> 6
  end /\
  match ForgotPassword.handleResetPassword s r3 with
  | (_, Some q) =>
      q = ForgotPassword.ResetPassword e code pw /\
      6 <= Js.length pw /\
      pw = ForgotPassword.confirmPassword s
  | (s', None) =>
      ForgotPassword.step s' = ForgotPassword.step s /\
      ForgotPassword.error s' <> "" /\
      (Js.length pw < 6 \/ pw <> ForgotPassword.confirmPassword s)
  end.
Proof.
  cbn zeta. split; [|split].
  - unfold ForgotPassword.handleSendCode.
    destruct (String.eqb_spec (ForgotPassword.email s) "") as [He|He];
      cbn [orb].
    + cbn. repeat split; [discriminate|now left].
    + destruct (includes "@" (ForgotPassword.email s)) eqn:Hat; cbn [negb].
      * destruct r1; cbn; repeat split; assumption.
      * cbn. repeat split; [discriminate|now right].
  - unfold ForgotPassword.handleVerifyCode.
    destruct (Nat.eqb_spec
                (Js.length (ForgotPassword.verificationCode s)) 6)
      as [Hl|Hl]; cbn [negb].
    + destruct r2 as [[[|] ?]|]; cbn; repeat split; assumption.
    + cbn. repeat split; [discriminate|assumption].
  - unfold ForgotPassword.handleResetPassword.
    destruct (Nat.ltb_spec (Js.length (ForgotPassword.newPassword s)) 6)
      as [Hl|Hl].
    + cbn. repeat split; [discriminate|now left].
    + destruct (String.eqb_spec (ForgotPassword.newPassword s)
                  (ForgotPassword.confirmPassword s)) as [Hp|Hp];
        cbn [negb].
      * destruct r3; cbn; repeat split; assumption.
      * cbn. repeat split; [discriminate|now right].
Qed.

Lemma success_needs_accepted_reset (hs : list ForgotPassword.Happening) :
  forall s,
    ForgotPassword.step (fst (ForgotPassword.history hs s))
      = ForgotPassword.success ->
    ForgotPassword.step s = ForgotPassword.success \/
    exists q,
      In (ForgotPassword.ResetPassword (ForgotPassword.email q)
            (ForgotPassword.verificationCode q)
            (ForgotPassword.newPassword q))
         (snd (ForgotPassword.history hs s)) /\
      In (ForgotPassword.ResetIt (ForgotPassword.Ok tt)) hs /\
      6 <= Js.length (ForgotPassword.newPassword q) /\
      ForgotPassword.newPassword q = ForgotPassword.confirmPassword q.
Proof.
  induction hs as [|h rest IH]; intros s H; cbn in *.
  - now left.
  - destruct (ForgotPassword.happen s h) as [s1 sent] eqn:Eh.
    specialize (IH s1).
    destruct (ForgotPassword.history rest s1) as [s2 more] eqn:Er.
    cbn in *. destruct (IH H) as [Hs1|(q & Hin & Hok & Hq)].
    + (* the step was reached by [h] itself *)
      destruct h as [v|v|v|v|reply|reply|reply|]; cbn in Eh.
      * inversion Eh; subst. now left.
      * inversion Eh; subst. now left.
      * inversion Eh; subst. now left.
      * inversion Eh; subst. now left.
      * unfold ForgotPassword.handleSendCode in Eh.
        destruct (_ || _) in Eh; [inversion Eh; subst; now left|].
        destruct reply; inversion Eh; subst; cbn in Hs1;
          [discriminate|now left].
      * unfold ForgotPassword.handleVerifyCode in Eh.
        destruct (negb _) in Eh; [inversion Eh; subst; now left|].
        destruct reply as [[[|] ?]|]; inversion Eh; subst; cbn in Hs1;
          try discriminate; now left.
      * unfold ForgotPassword.handleResetPassword in Eh.
        destruct (Nat.ltb_spec
                    (Js.length (ForgotPassword.newPassword s)) 6)
          as [Hl|Hl]; [inversion Eh; subst; now left|].
        destruct (String.eqb_spec (ForgotPassword.newPassword s)
                    (ForgotPassword.confirmPassword s)) as [Hp|Hp];
          cbn [negb] in Eh; [|inversion Eh; subst; now left].
        destruct reply as [[]|err]; inversion Eh; subst.
        -- right. exists s.
           split; [now left|]. split; [now left|]. split; assumption.
        -- now left.
      * unfold ForgotPassword.tick in Eh.
        destruct (_ <? _)%Z in Eh; inversion Eh; subst; now left.
    + right. exists q. destruct Hq as [Hl Hp].
      split; [destruct sent; [now right|assumption]|].
      split; [now right|]. split; assumption.
Qed.

(** X20.  The page shows its last step only after the server has accepted
    a password reset.  However the user types, whichever handlers run with
    whatever answers, and however often the countdown ticks: if the page
    ends in [success], then a reset request was sent and answered
    positively, and it carried a password of at least six UTF-16 code units
    that matched its confirmation. *)
Theorem success_only_after_an_accepted_reset
  (hs : list ForgotPassword.Happening) :
  let run := ForgotPassword.history hs ForgotPassword.initial in
  ForgotPassword.step (fst run) = ForgotPassword.success ->
  In (ForgotPassword.ResetIt (ForgotPassword.Ok tt)) hs /\
  exists email code password,
    In (ForgotPassword.ResetPassword email code password) (snd run) /\
    6 <= Js.length password.
Proof.
  cbn zeta. intros H.
  destruct (success_needs_accepted_reset hs _ H)
    as [Hs|(q & Hin & Hok & Hl & _)]; [discriminate|].
  split; [exact Hok|]. eauto.
Qed.

Lemma success_only_after_an_accepted_reset_witness :
  let hs := [ForgotPassword.TypeEmail "ann@example.org";
             ForgotPassword.SendCode
               (ForgotPassword.Ok {| ForgotPassword.message := "sent";
                                     ForgotPassword.expires_in := 600%Z |});
             ForgotPassword.TypeCode "12-34-56";
             ForgotPassword.CheckCode
               (ForgotPassword.Ok {| ForgotPassword.valid := true;
                                     ForgotPassword.check_error := None |});
             ForgotPassword.TypeNewPassword "密码密码密码";
             ForgotPassword.TypeConfirmPassword "密码密码密码";
             ForgotPassword.ResetIt (ForgotPassword.Ok tt)] in
  In (ForgotPassword.ResetIt (ForgotPassword.Ok tt)) hs /\
  exists email code password,
    In (ForgotPassword.ResetPassword email code password)
       (snd (ForgotPassword.history hs ForgotPassword.initial)) /\
    6 <= Js.length password.
Proof.
  apply (@success_only_after_an_accepted_reset
           [ForgotPassword.TypeEmail "ann@example.org";
            ForgotPassword.SendCode
              (ForgotPassword.Ok {| ForgotPassword.message := "sent";
                                    ForgotPassword.expires_in := 600%Z |});
            ForgotPassword.TypeCode "12-34-56";
            ForgotPassword.CheckCode
              (ForgotPassword.Ok {| ForgotPassword.valid := true;
                                    ForgotPassword.check_error := None |});
            ForgotPassword.TypeNewPassword "密码密码密码";
            ForgotPassword.TypeConfirmPassword "密码密码密码";
            ForgotPassword.ResetIt (ForgotPassword.Ok tt)]).
  reflexivity.
Defined.









(* ------------------------------------------------------------------ *)
(** ** Error messages *)

Lemma substring_prefix (n : nat) :
  forall s,
    String.length (substring 0 n s) = n ->
    exists post, s = (substring 0 n s ++ post)%string.
Proof.
  induction n as [|n IH]; intros [|c s] H; cbn in *.
  - now exists "".
  - now exists (String c s).
  - discriminate.
  - injection H as H. destruct (IH s H) as (post & Hs).
    exists post. now rewrite <- Hs.
Qed.

Lemma substring_cut (m n : nat) :
  forall s,
    String.length (substring m n s) = n ->
    exists pre post, s = (pre ++ substring m n s ++ post)%string.
Proof.
  induction m as [|m IH]; intros s H.
  - destruct (@substring_prefix n s H) as (post & Hs). now exists "", post.
  - destruct s as [|c s]; cbn in *.
    + exists "", "". now destruct n.
    + destruct (IH s H) as (pre & post & Hs).
      exists (String c pre), post. cbn. now rewrite <- Hs.
Qed.

Lemma substring_found (pre sub post : string) :
  substring (String.length pre) (String.length sub) (pre ++ sub ++ post)
  = sub.
Proof.
  induction pre as [|c pre IH]; cbn.
  - induction sub as [|c sub IH]; cbn.
    + now destruct post.
    + now rewrite IH.
  - exact IH.
Qed.

Lemma append_assoc (a b c : string) :
  ((a ++ b) ++ c = a ++ b ++ c)%string.
Proof. induction a as [|x a IH]; cbn; [reflexivity|now rewrite IH]. Qed.

(** [includes] finds exactly the substrings. *)
Lemma includes_iff (sub s : string) :
  includes sub s = true <->
  exists pre post, s = (pre ++ sub ++ post)%string.
Proof.
  unfold includes. split.
  - destruct (index 0 sub s) as [m|] eqn:E; [|discriminate]. intros _.
    apply index_correct1 in E.
    destruct (@substring_cut m (String.length sub) s) as (pre & post & Hs).
    + now rewrite E.
    + exists pre, post. now rewrite E in Hs.
  - intros (pre & post & ->).
    destruct (index 0 sub (pre ++ sub ++ post)) as [m|] eqn:E;
      [reflexivity|].
    destruct sub as [|c sub].
    + apply index_correct4 in E. lia.
    + exfalso.
      apply (@index_correct3 0 (String.length pre) (String c sub)
               (pre ++ String c sub ++ post) E); [discriminate|lia|].
      apply substring_found.
Qed.

Lemma includes_longer (sub pre post s : string) :
  includes (pre ++ sub ++ post) s = true -> includes sub s = true.
Proof.
  rewrite !includes_iff. intros (a & b & ->).
  exists (a ++ pre)%string, (post ++ b)%string.
  now rewrite !append_assoc.
Qed.

Lemma normalized_cases
  (toLowerCase : string -> string) (errorMessage : option string) :
  let shown := Utils.normalizeErrorMessage toLowerCase errorMessage in
  shown <> "" /\
  (In shown [ "操作失败"; Utils.no_template; Utils.no_description;
              Utils.image_exists; Utils.key_not_configured;
              Utils.key_invalid ] \/
   errorMessage = Some shown).
Proof.
  cbn zeta. unfold Utils.normalizeErrorMessage.
  destruct errorMessage as [[|c text]|].
  - split; [discriminate|]. left. now left.
  - repeat match goal with
           | |- context [if ?b then _ else _] => destruct b
           end;
      (split; [discriminate|]);
      try (left; cbn; tauto); now right.
  - split; [discriminate|]. left. now left.
Qed.

(** X22.  [normalizeErrorMessage] never returns an empty text: it returns
    one of its five hints, the default text for a missing or empty
    message, or else the message exactly as it was given (not the
    lower-cased copy that the patterns are matched against). *)
Theorem normalized_message_is_never_empty
  (toLowerCase : string -> string) (errorMessage : option string) :
  let shown := Utils.normalizeErrorMessage toLowerCase errorMessage in
  shown <> "" /\
  (In shown [ "操作失败"; Utils.no_template; Utils.no_description;
              Utils.image_exists; Utils.key_not_configured;
              Utils.key_invalid ] \/
   errorMessage = Some shown).
Proof. apply normalized_cases. Qed.

(** X23.  A message that contains ["api key not valid"] is never reported
    as an invalid key.  It contains ["api key"] and ["not valid"], so the
    test for a key that is not configured, which comes first, takes it
    (unless one of the three earlier hints does); of the last test only
    ["invalid api key"] can ever decide. *)
Theorem not_valid_key_is_reported_as_not_configured
  (toLowerCase : string -> string) (text : string) :
  text <> "" ->
  includes "api key not valid" (toLowerCase text) = true ->
  let shown := Utils.normalizeErrorMessage toLowerCase (Some text) in
  In shown [ Utils.no_template; Utils.no_description; Utils.image_exists;
             Utils.key_not_configured ] /\
  shown <> Utils.key_invalid.
Proof.
  intros Hne H. cbn zeta.
  destruct text as [|c text]; [congruence|].
  unfold Utils.normalizeErrorMessage.
  set (message := toLowerCase (String c text)) in *.
  assert (Hkey : includes "api key" message = true)
    by exact (@includes_longer "api key" "" " not valid" _ H).
  assert (Hnot : includes "not valid" message = true)
    by exact (@includes_longer "not valid" "api key " "" _ H).
  rewrite Hkey, Hnot, !orb_true_r. cbn [andb].
  repeat match goal with
         | |- context [if ?b then _ else _] => destruct b
         end;
    (split; [cbn; tauto|discriminate]).
Qed.

Lemma not_valid_key_is_reported_as_not_configured_witness :
  let shown :=
    Utils.normalizeErrorMessage (fun s => s)
      (Some "400 api key not valid. please pass a valid api key.") in
  In shown [ Utils.no_template; Utils.no_description; Utils.image_exists;
             Utils.key_not_configured ] /\
  shown <> Utils.key_invalid.
Proof.
  apply (@not_valid_key_is_reported_as_not_configured (fun s => s)
           "400 api key not valid. please pass a valid api key.").
  - discriminate.
  - reflexivity.
Defined.

(** X24.  [extractErrorMessage] returns an empty text in one case only:
    the backend's [error] is the empty string and there is no [message]
    beside it.  Passed on to [normalizeErrorMessage], every failure
    therefore ends up as a text that is not empty. *)
Theorem extracted_message_is_shown
  (toLowerCase : string -> string) (error : Utils.Failure) :
  (Utils.extractErrorMessage error = "" <->
   exists data,
     Utils.response_data error = Some data /\
     Utils.data_error data = Utils.ErrorText "" /\
     truthy (Utils.data_message data) = false) /\
  Utils.normalizeErrorMessage toLowerCase
    (Some (Utils.extractErrorMessage error)) <> "".
Proof.
  split.
  - unfold Utils.extractErrorMessage.
    destruct error as [[[e m]|] fm]; cbn.
    + destruct e as [|[|? ?]|[[|? ?]|]], m as [[|? ?]|],
        fm as [[|? ?]|]; cbn;
        (split; [try discriminate; intros _; eexists; repeat split
                |try reflexivity;
                 intros (d & [= <-] & Hd & Ht); cbn in *;
                 try discriminate]).
    + destruct fm as [[|? ?]|]; cbn;
        (split; [discriminate|intros (d & Hd & _); discriminate]).
  - apply (normalized_cases toLowerCase
             (Some (Utils.extractErrorMessage error))).
Qed.

(* ------------------------------------------------------------------ *)
(** ** debounce and throttle *)

Section Timers.

Variable Args : Type.

Lemma clearTimeout_same (id : nat) (a : Args) :
  Timing.clearTimeout id [(id, a)] = [].
Proof. unfold Timing.clearTimeout. cbn [filter fst]. now rewrite Nat.eqb_refl. Qed.

Lemma find_timer_same (id : nat) (a : Args) :
  Timing.find_timer id [(id, a)] = Some a.
Proof. unfold Timing.find_timer. cbn [filter fst]. now rewrite Nat.eqb_refl. Qed.

Lemma find_timer_other (id id' : nat) (a : Args) :
  id <> id' -> Timing.find_timer id' [(id, a)] = None.
Proof.
  intros H. unfold Timing.find_timer. cbn [filter fst].
  now destruct (Nat.eqb_spec id id').
Qed.

Lemma debounced_tidy (s : Timing.Debounced Args) (h : Timing.Happening Args) :
  debounce_tidy s -> debounce_tidy (Timing.debounced s h).
Proof.
  unfold debounce_tidy.
  intros [Hn|(id & a & Ht & Hid)]; destruct h as [args|id'];
    cbn [Timing.debounced].
  - right. exists (Timing.next_timer s), args. rewrite Hn.
    destruct (Timing.timeout s); now split.
  - rewrite Hn. cbn. now left.
  - right. exists (Timing.next_timer s), args.
    rewrite Hid, Ht, clearTimeout_same. now split.
  - rewrite Ht. destruct (Nat.eq_dec id id') as [->|Hne].
    + rewrite find_timer_same. cbn [Timing.timers].
      rewrite clearTimeout_same. now left.
    + rewrite find_timer_other by exact Hne. right. exists id, a. now split.
Qed.

Lemma debounce_history_tidy (hs : list (Timing.Happening Args)) :
  forall s, debounce_tidy s ->
            debounce_tidy (fold_left (@Timing.debounced Args) hs s).
Proof.
  induction hs as [|h hs IH]; intros s Hs; cbn; [exact Hs|].
  apply IH. now apply debounced_tidy.
Qed.

Lemma debounce_burst (l : list Args) :
  forall (s : Timing.Debounced Args) (last : Args),
    debounce_tidy s ->
    let s' := fold_left (@Timing.debounced Args)
                (map (@Timing.CallIt Args) (l ++ [last])) s in
    Timing.invoked s' = Timing.invoked s /\
    exists id, Timing.timers s' = [(id, last)] /\
               Timing.timeout s' = Some id.
Proof.
  induction l as [|a l IH]; intros s last Hs; cbn.
  - split; [reflexivity|]. exists (Timing.next_timer s).
    destruct Hs as [Hn|(id & b & Ht & Hid)].
    + rewrite Hn. destruct (Timing.timeout s); now split.
    + rewrite Hid, Ht, clearTimeout_same. now split.
  - destruct (IH (Timing.debounced s (Timing.CallIt a)) last) as [Hi He].
    + now apply debounced_tidy.
    + split; [exact Hi|exact He].
Qed.

(** X25.  A debounced function runs [func] only when a timer fires, and
    then with the arguments of the latest call.  After any history, a burst
    of calls (however many) invokes nothing; exactly one timer is left,
    and when it fires [func] is invoked once, with the arguments of the
    last call of the burst. *)
Theorem debounce_runs_the_last_call_of_a_burst
  (hs : list (Timing.Happening Args)) (burst : list Args) (last : Args) :
  let s := fold_left (@Timing.debounced Args) hs (Timing.debounce Args) in
  let s' := fold_left (@Timing.debounced Args)
              (map (@Timing.CallIt Args) (burst ++ [last])) s in
  Timing.invoked s' = Timing.invoked s /\
  exists id,
    Timing.timers s' = [(id, last)] /\
    Timing.invoked (Timing.debounced s' (Timing.Fire Args id))
      = Timing.invoked s ++ [last] /\
    Timing.timers (Timing.debounced s' (Timing.Fire Args id)) = [].
Proof.
  cbn zeta.
  destruct (@debounce_burst burst
              (fold_left (@Timing.debounced Args) hs (Timing.debounce Args))
              last) as [Hi (id & Ht & Hid)].
  { apply debounce_history_tidy. now left. }
  split; [exact Hi|]. exists id. split; [exact Ht|].
  cbn [Timing.debounced]. rewrite Ht, find_timer_same.
  cbn [Timing.invoked Timing.timers]. rewrite clearTimeout_same, Hi.
  now split.
Qed.

Lemma throttled_count (s : Timing.Throttled Args) (m : Timing.Moment Args) :
  let s' := Timing.throttled s m in
  length (Timing.called s') + throttle_busy s + Timing.reentries s
  <= length (Timing.called s) + Timing.timer_fires [m] + Timing.throws [m]
     + Timing.reentries s' + throttle_busy s'.
Proof.
  unfold throttle_busy, Timing.timer_fires, Timing.throws.
  destruct s as [flag timers next stack done again].
  destruct m as [args| | |id]; cbn.
  - destruct flag, stack; cbn; rewrite ?length_app; cbn; lia.
  - destruct flag, stack as [|a [|b stack]]; cbn; lia.
  - destruct flag, stack as [|a [|b stack]]; cbn; lia.
  - destruct stack; cbn; [|lia].
    destruct (existsb (Nat.eqb id) timers); destruct flag; cbn; lia.
Qed.

Lemma throttle_history (ms : list (Timing.Moment Args)) :
  forall s,
    let s' := fold_left (@Timing.throttled Args) ms s in
    length (Timing.called s') + throttle_busy s + Timing.reentries s
    <= length (Timing.called s) + Timing.timer_fires ms + Timing.throws ms
       + Timing.reentries s' + throttle_busy s'.
Proof.
  induction ms as [|m ms IH]; intros s; cbn zeta.
  - cbn. lia.
  - cbn [fold_left].
    pose proof (throttled_count s m) as H1.
    pose proof (IH (Timing.throttled s m)) as H2. cbn zeta in H1, H2.
    assert (Hf : Timing.timer_fires (m :: ms)
                 = Timing.timer_fires [m] + Timing.timer_fires ms)
      by (unfold Timing.timer_fires; cbn; destruct m; reflexivity).
    assert (Ht : Timing.throws (m :: ms)
                 = Timing.throws [m] + Timing.throws ms)
      by (unfold Timing.throws; cbn; destruct m; reflexivity).
    lia.
Qed.

(** While the window is closed, calls change nothing. *)
Lemma throttle_window (burst : list Args) :
  forall s : Timing.Throttled Args,
    Timing.inThrottle s = true ->
    fold_left (@Timing.throttled Args) (map (@Timing.Called Args) burst) s
    = s.
Proof.
  induction burst as [|a burst IH]; intros s Hs; cbn; [reflexivity|].
  rewrite Hs. cbn. now apply IH.
Qed.

(** A [func] that throws keeps the window open. *)
Lemma throttle_throwing (burst : list Args) :
  forall s : Timing.Throttled Args,
    Timing.running s = [] ->
    Timing.inThrottle s = false ->
    let s' := fold_left (@Timing.throttled Args)
                (flat_map (@Timing.throwing Args) burst) s in
    Timing.called s' = Timing.called s ++ burst /\
    Timing.inThrottle s' = false /\
    Timing.running s' = [] /\
    Timing.resets s' = Timing.resets s.
Proof.
  induction burst as [|a burst IH]; intros s Hr Hf; cbn zeta.
  - cbn. now rewrite app_nil_r.
  - cbn [flat_map Timing.throwing app fold_left].
    destruct s as [flag timers next stack done again]. cbn in Hr, Hf. subst.
    cbn [Timing.throttled Timing.inThrottle Timing.running negb].
    match goal with
    | |- context [fold_left _ _ ?s1] =>
        destruct (IH s1 eq_refl eq_refl) as (Hc & Hi & Hs & Ht)
    end.
    cbn zeta in *. rewrite Hc, Hi, Hs, Ht. cbn.
    rewrite <- app_assoc. now repeat split.
Qed.

(** X26.  A throttled function calls [func] first and closes its window
    only when [func] has returned.  After any history of calls, endings of
    [func] and timers, [func] has been called at most once more often than
    timers have fired, calls of [func] have thrown, and [func] has called
    the throttled function from inside; so a [func] that returns and does
    not call back runs at most once per window.  Once the first call of a
    burst has returned, the further calls are dropped, not postponed.  A
    [func] that throws is not throttled at all: every call of the burst
    runs it, and no timer is set. *)
Theorem throttle_runs_once_per_window
  (ms : list (Timing.Moment Args)) (first : Args) (burst : list Args) :
  let s := fold_left (@Timing.throttled Args) ms (Timing.throttle Args) in
  length (Timing.called s)
    <= S (Timing.timer_fires ms + Timing.throws ms + Timing.reentries s) /\
  (Timing.running s = [] -> Timing.inThrottle s = false ->
   let s1 := fold_left (@Timing.throttled Args)
               (Timing.returning first ++ map (@Timing.Called Args) burst)
               s in
   Timing.called s1 = Timing.called s ++ [first] /\
   Timing.inThrottle s1 = true /\
   Timing.resets s1 = Timing.resets s ++ [Timing.next_reset s]) /\
  (Timing.running s = [] -> Timing.inThrottle s = false ->
   let s2 := fold_left (@Timing.throttled Args)
               (flat_map (@Timing.throwing Args) (first :: burst)) s in
   Timing.called s2 = Timing.called s ++ first :: burst /\
   Timing.inThrottle s2 = false /\
   Timing.resets s2 = Timing.resets s).
Proof.
  cbn zeta. split; [|split].
  - pose proof (@throttle_history ms (Timing.throttle Args)) as Hl.
    cbn zeta in Hl. unfold throttle_busy in Hl at 1. cbn in Hl.
    assert (Hb : throttle_busy
                   (fold_left (@Timing.throttled Args) ms
                      (Timing.throttle Args)) <= 1)
      by (unfold throttle_busy;
          repeat match goal with
                 | |- context [match ?x with _ => _ end] => destruct x
                 end; lia).
    lia.
  - intros Hr Hf.
    cbn [Timing.returning app fold_left]. cbn [Timing.throttled].
    rewrite Hf. cbn [negb Timing.running].
    rewrite throttle_window by reflexivity.
    cbn. now repeat split.
  - intros Hr Hf.
    destruct (@throttle_throwing (first :: burst) _ Hr Hf)
      as (Hc & Hi & _ & Ht).
    now repeat split.
Qed.

End Timers.

Lemma throttle_runs_once_per_window_witness :
  let s := fold_left (@Timing.throttled nat)
             [Timing.Called 1; Timing.FuncReturns nat; Timing.Called 2;
              Timing.TimerFires nat 1]
             (Timing.throttle nat) in
  Timing.called s = [1] /\
  Timing.called
    (fold_left (@Timing.throttled nat)
       (Timing.returning 3 ++ map (@Timing.Called nat) [4; 5]) s)
  = [1; 3] /\
  Timing.called
    (fold_left (@Timing.throttled nat)
       (flat_map (@Timing.throwing nat) [3; 4; 5]) s)
  = [1; 3; 4; 5].
Proof.
  destruct (@throttle_runs_once_per_window nat
              [Timing.Called 1; Timing.FuncReturns nat; Timing.Called 2;
               Timing.TimerFires nat 1] 3 [4; 5])
    as (_ & Hreturning & Hthrowing).
  destruct (Hreturning eq_refl eq_refl) as (H1 & _).
  destruct (Hthrowing eq_refl eq_refl) as (H2 & _).
  exact (conj eq_refl (conj H1 H2)).
Defined.
